(** * server.js: the profile store and its HTTP endpoints

    A shallow embedding of [server.js]: the JSON store kept in
    [data/users.json], the short-id generator, the upload filter and the four
    endpoints, followed by the properties of the store that the endpoints
    maintain.

    Every route handler of the program is synchronous ([readFileSync],
    [writeFileSync], [unlinkSync]), so a request runs from [loadDb] to its
    response without interleaving; a request is therefore one step on the
    state of the backing file: what it holds, and whether it is there at
    all, since the delete handler unlinks a file that the request names. *)

From Stdlib Require Import ZArith Ascii String List Lia.
From stdpp Require Import base option list gmap strings pretty relations.

Local Open Scope Z_scope.
Local Open Scope stdpp_scope.

(** ** The JavaScript run-time the program relies on *)

Module Js.

(** A completion: the value returned, or the error thrown (for a
    middleware: the error handed to [cb] / [next]). *)
Inductive JsError :=
| MulterError (code field : string)
| Error (message : string).

Inductive Outcome (A : Type) :=
| Done (a : A)
| Raise (e : JsError).
Arguments Done {A} a.
Arguments Raise {A} e.

#[export] Instance Outcome_ret : MRet Outcome := λ A a, Done a.
#[export] Instance Outcome_bind : MBind Outcome := λ A B k m,
  match m with
  | Done a => k a
  | Raise e => Raise e
  end.

(** [try { body } catch { handler }] *)
Definition try_catch {A} (body : Outcome A) (handler : JsError → Outcome A) : Outcome A :=
  match body with
  | Done a => Done a
  | Raise e => handler e
  end.

(** [err.message]; multer derives the message of a [MulterError] from its
    code. *)
Definition message (e : JsError) : string :=
  match e with
  | MulterError code _ =>
      if decide (code = "LIMIT_UNEXPECTED_FILE") then "Unexpected field"
      else if decide (code = "LIMIT_FILE_COUNT") then "Too many files"
      else if decide (code = "LIMIT_FILE_SIZE") then "File too large"
      else code
  | Error m => m
  end.

(** [e instanceof multer.MulterError] *)
Definition instanceof_MulterError (e : JsError) : bool :=
  match e with
  | MulterError _ _ => true
  | Error _ => false
  end.

(** Truthiness of a string: only the empty string is falsy. *)
Definition truthy (s : string) : bool :=
  match s with
  | EmptyString => false
  | String _ _ => true
  end.

(** [s.startsWith(p)] *)
Definition startsWith (s p : string) : bool := String.prefix p s.

(** [s.slice(b, e)] for indices [0 <= b <= e]. *)
Definition slice (b e : nat) (s : string) : string := String.substring b (e - b) s.

(** [s.substring(b)] for an index [0 <= b]. *)
Fixpoint substring (b : nat) (s : string) : string :=
  match b, s with
  | O, _ => s
  | S b', String _ s' => substring b' s'
  | S _, EmptyString => EmptyString
  end.

(** [s.split(sep)] for a separator of one character. *)
Fixpoint split_go (sep : ascii) (cur : string) (s : string) : list string :=
  match s with
  | EmptyString => [String.rev cur]
  | String c s' =>
      if Ascii.eqb c sep then String.rev cur :: split_go sep "" s'
      else split_go sep (String c cur) s'
  end.
Definition split (sep : ascii) (s : string) : list string := split_go sep "" s.

(** [parts.join(sep)] *)
Fixpoint join (sep : string) (parts : list string) : string :=
  match parts with
  | [] => ""
  | [p] => p
  | p :: rest => p +:+ sep +:+ join sep rest
  end.

(** [a.indexOf(x)] on an array of strings: the least index holding [x],
    or [-1]. *)
Fixpoint indexOf (a : list string) (x : string) : Z :=
  match a with
  | [] => -1
  | y :: rest =>
      if decide (y = x) then 0
      else let i := indexOf rest x in if decide (i = -1) then -1 else i + 1
  end.

(** [a.splice(start, count)] for [0 <= start]: the array that is left. *)
Definition splice {A} (a : list A) (start count : nat) : list A :=
  take start a ++ drop (start + count) a.

(** *** Property access on objects made by [JSON.parse]

    Such an object is an ordinary object whose prototype is
    [Object.prototype]: reading a key that is not an own property finds
    the members of [Object.prototype]. *)
Definition Object_prototype_keys : list string :=
  [ "constructor"; "__proto__"; "hasOwnProperty"; "isPrototypeOf";
    "propertyIsEnumerable"; "toLocaleString"; "toString"; "valueOf";
    "__defineGetter__"; "__defineSetter__"; "__lookupGetter__";
    "__lookupSetter__" ].

Inductive Lookup (A : Type) :=
| Own (a : A)      (* an own property, as parsed or assigned *)
| Inherited        (* a member of Object.prototype: an object or function *)
| Undefined.
Arguments Own {A} a.
Arguments Inherited {A}.
Arguments Undefined {A}.

(** [o[k]] *)
Definition get {A} (o : gmap string A) (k : string) : Lookup A :=
  match o !! k with
  | Some a => Own a
  | None => if decide (k ∈ Object_prototype_keys) then Inherited else Undefined
  end.

(** [o[k] = v].  On an object without an own ["__proto__"] the assignment
    runs the setter of [Object.prototype]: no own property is created (the
    prototype is replaced when [v] is an object, nothing happens when it is
    a string), so nothing of it is serialised by [JSON.stringify]. *)
Definition set {A} (o : gmap string A) (k : string) (v : A) : gmap string A :=
  if decide (k = "__proto__" ∧ o !! k = None) then o else <[k := v]> o.

(** *** [Math.random().toString(36)]

    [Math.random()] is a double in [[0, 1)].  In radix 36 it prints as
    ["0"] when it is zero and as ["0."] followed by its fractional digits
    otherwise; the outcome of the randomness source is recorded as these
    digits. *)
Record Random := mkRandom {
  frac : list nat;
  frac_digits : forallb (λ d, Nat.ltb d 36) frac = true
}.

Definition digit_chars : list ascii :=
  list_ascii_of_string "0123456789abcdefghijklmnopqrstuvwxyz".

Definition digit (d : nat) : ascii := nth d digit_chars "0"%char.

Definition toString36 (r : Random) : string :=
  match frac r with
  | [] => "0"
  | ds => "0." +:+ string_of_list_ascii (map digit ds)
  end.

End Js.

Import Js.

(** A file name: one segment of a path, other than ["."] and [".."]. *)
Definition plain (sep : ascii) (name : string) : Prop :=
  name ≠ "" ∧ name ≠ "." ∧ name ≠ ".."
  ∧ ∀ c, c ∈ list_ascii_of_string name → c ≠ "/"%char ∧ c ≠ sep.

(** Built-ins of the platform whose full definition (Unicode tables, the
    path syntax of the operating system) is not part of the program, with
    three facts about Node's [path] module: the separator is the slash or
    the backslash; an extension lies within the last segment of a path; and
    the file reached by joining onto [ROOT_DIR] the path, relative to
    [ROOT_DIR], of a file [name] in a directory is that file, so that it is
    [data/users.json] only if [name] is ["users.json"]. *)
Class Platform := {
  trim : string → string;                    (* String.prototype.trim *)
  toLowerCase : string → string;             (* String.prototype.toLowerCase *)
  path_relative : string → string → string;  (* path.relative *)
  path_join : string → string → string;      (* path.join *)
  path_extname : string → string;            (* path.extname *)
  path_sep : ascii;                          (* path.sep *)
  encodeURIComponent : string → string;
  member_text : string → string;             (* String(Object.prototype[k]) *)
  ROOT_DIR : string;                         (* __dirname *)
  path_sep_cases : path_sep = "/"%char ∨ path_sep = "092"%char;
  path_extname_segment :
    ∀ originalname c,
      c ∈ list_ascii_of_string (path_extname originalname) →
      c ≠ "/"%char ∧ c ≠ path_sep;
  path_join_relative :
    ∀ dir name,
      plain path_sep name →
      path_join ROOT_DIR
        (join "/" (split path_sep (path_relative ROOT_DIR (path_join dir name))))
      = path_join (path_join ROOT_DIR "data") "users.json" →
      name = "users.json"
}.

(** ** Data model *)

(** A profile as stored under [byUsername].  The handlers test the
    properties [photos] and [shortId] before use; they are [None] when the
    profile has no such property.  The profiles that the update handler
    writes have both. *)
Record Profile := mkProfile {
  username : string;
  blessing : string;
  photos : option (list string);
  shortId : option string
}.

Record Store := mkStore {
  byUsername : gmap string Profile;
  byShortId : gmap string string
}.

Definition emptyStore : Store := {| byUsername := ∅; byShortId := ∅ |}.

(** The backing file [DB_FILE]: missing, holding text that [JSON.parse]
    rejects, or holding the serialisation of a store.  [saveDb] is the only
    writer of the file, so these are the contents it has in operation; the
    serialised store is identified with the store ([JSON.parse] gives back
    what [JSON.stringify] was given: strings, arrays of strings and objects
    with their own properties).  A file written by hand that parses to
    something other than a store (["{}"], ["null"]), on which the handlers
    throw a [TypeError], is outside this type. *)
Inductive DbFile :=
| NoFile
| Garbage (raw : string)
| Saved (db : Store).

(** What [fs.readFileSync(DB_FILE, 'utf8')] hands to [JSON.parse]. *)
Inductive Contents :=
| RawText (raw : string)
| JsonText (db : Store).

Definition readFileSync (f : DbFile) : Outcome Contents :=
  match f with
  | NoFile => Raise (Error "ENOENT: no such file or directory")
  | Garbage raw => Done (RawText raw)
  | Saved db => Done (JsonText db)
  end.

Definition JSON_parse (c : Contents) : Outcome Store :=
  match c with
  | RawText _ => Raise (Error "SyntaxError")
  | JsonText db => Done db
  end.

Definition loadDb (f : DbFile) : Outcome Store :=
  try_catch
    (raw ← readFileSync f; JSON_parse raw)
    (λ _, Done emptyStore).

(** [fs.writeFileSync(DB_FILE, JSON.stringify(db, null, 2), 'utf8')], when
    the write goes through.  A write that fails (disk full, no permission)
    throws, and the request ends in the global error handler; the run of
    such a request is not described by the handlers below. *)
Definition saveDb (db : Store) : DbFile := Saved db.

Definition generateShortId (r : Random) : string :=
  slice 2 8 (toString36 r).

(** ** Uploads: the multer middleware and its file filter *)

(** A file part of a multipart body as multer presents it to the filter and,
    once stored, to the handler.  [mimetype] is [None] when the part declares
    no content type.  [now] and [rounded] are the values of [Date.now()] and
    of [Math.round(Math.random() * 1e9)] that the disk storage of the program
    reads when it names the file. *)
Record File := mkFile {
  fieldname : string;
  originalname : string;
  mimetype : option string;
  now : N;
  rounded : N
}.

(** [file.mimetype && file.mimetype.startsWith('image/')] *)
Definition is_image (file : File) : bool :=
  match mimetype file with
  | Some m => truthy m && startsWith m "image/"
  | None => false
  end.

Definition fileFilter (file : File) : Outcome bool :=
  if is_image file then Done true
  else Raise (Error "Only image uploads are allowed").

(** The body of a request to the update endpoint. *)
Inductive Upload :=
| NotMultipart
| Multipart (parts : list File).

(** [upload.array(name, maxCount)] of multer: file parts are taken in order;
    a part under another field name, or beyond [maxCount], aborts the request
    with a [MulterError]; a part the filter rejects aborts it with the
    filter's error; a part the filter declines without error is skipped.  The
    first error is the one passed on.  [filesLeft] counts the parts that
    [name] may still take. *)
Fixpoint multer_files (name : string) (filesLeft : nat) (parts : list File)
  {struct parts} : Outcome (list File) :=
  match parts with
  | [] => Done []
  | file :: rest =>
      match filesLeft with
      | S remaining =>
          if decide (fieldname file = name) then
            includeFile ← fileFilter file;
            accepted ← multer_files name remaining rest;
            Done (if includeFile : bool then file :: accepted else accepted)
          else Raise (MulterError "LIMIT_UNEXPECTED_FILE" (fieldname file))
      | O => Raise (MulterError "LIMIT_UNEXPECTED_FILE" (fieldname file))
      end
  end.

(** The value of [req.files] after the middleware: [None] (undefined) when
    the request is not multipart. *)
Definition upload_array (name : string) (maxCount : nat) (body : Upload)
  : Outcome (option (list File)) :=
  match body with
  | NotMultipart => Done None
  | Multipart parts => files ← multer_files name maxCount parts; Done (Some files)
  end.

(** ** Responses *)

Inductive Body :=
| JsonError (error : string)                 (* { error } *)
| JsonFail (error : string)                  (* { ok: false, error } *)
| JsonUser (username blessing : string) (photos : list string)
           (shortId : option string)         (* shortId: null when None *)
| JsonSaved (username blessing : string) (photos : list string)
            (shortId shortUrl : string)      (* { ok: true, ... } *)
| JsonDeleted (message : string)             (* { ok: true, message } *)
| Text (text : string)
| Redirect (location : string).

Record Response := mkResponse {
  status : nat;
  body : Body
}.

(** The global error-handling middleware. *)
Definition error_handler (err : JsError) : Response :=
  if instanceof_MulterError err
     || bool_decide (message err = "Only image uploads are allowed")
  then {| status := 400; body := JsonError "Only image uploads are allowed" |}
  else {| status := 500; body := JsonError "Internal server error" |}.

(** ** Short ids *)

(** [byShortId[shortId]] taken as a condition. *)
Definition taken (byShortId : gmap string string) (shortId : string) : bool :=
  match get byShortId shortId with
  | Own owner => truthy owner
  | Inherited => true
  | Undefined => false
  end.

(** [do { shortId = generateShortId(); } while (byShortId[shortId]);]
    run on the successive outcomes [rnd] of [Math.random()].  [None]: every
    outcome supplied collided, the loop is still running. *)
Fixpoint generate_loop (byShortId : gmap string string) (rnd : list Random)
  : option string :=
  match rnd with
  | [] => None
  | r :: rest =>
      let shortId := generateShortId r in
      if taken byShortId shortId then generate_loop byShortId rest
      else Some shortId
  end.

(** ** The endpoints *)

(** Properties read off [db.byUsername[username]]: a member of
    [Object.prototype] and the empty object [{}] have none of them. *)
Definition prop_blessing (user : Lookup Profile) : option string :=
  match user with Own p => Some (blessing p) | _ => None end.
Definition prop_photos (user : Lookup Profile) : option (list string) :=
  match user with Own p => photos p | _ => None end.
Definition prop_shortId (user : Lookup Profile) : option string :=
  match user with Own p => shortId p | _ => None end.

(** [x || d] on a string that may be undefined. *)
Definition or_string (x : option string) (d : string) : string :=
  match x with
  | Some s => if truthy s then s else d
  | None => d
  end.

(** [x || null] *)
Definition or_null (x : option string) : option string :=
  match x with
  | Some s => if truthy s then Some s else None
  | None => None
  end.

(** The profile object after its [photos] array has been changed in place. *)
Definition with_photos (user : Profile) (l : list string) : Profile :=
  {| username := username user; blessing := blessing user;
     photos := Some l; shortId := shortId user |}.

(** ** The disk storage of uploads *)

Module Storage.

Section Storage.
Context `{Platform}.
Variable path_join : string → string → string.  (* path.join *)
Variable path_extname : string → string.        (* path.extname *)

Definition UPLOADS_DIR : string := path_join ROOT_DIR "uploads".
Definition PHOTO_DIR : string := path_join UPLOADS_DIR "photos".

(** [destination]: the directory handed to [cb] (it is created on the way). *)
Definition destination (params_username : string) : string :=
  let username := toLowerCase (trim params_username) in
  let userDir := path_join PHOTO_DIR (or_string (Some username) "anonymous") in
  userDir.

(** [filename]: the name handed to [cb].  [now] is [Date.now()] and [rounded]
    is [Math.round(Math.random() * 1e9)], both whole numbers, which the
    concatenation prints in decimal. *)
Definition filename (now rounded : N) (originalname : string) : string :=
  let ext := or_string (Some (path_extname originalname)) ".jpg" in
  let base := pretty now +:+ "-" +:+ pretty rounded in
  base +:+ ext.

End Storage.

(** What [path.extname] returns: nothing, or an extension led by its dot. *)
Definition dotted (ext : string) : bool :=
  match ext with
  | EmptyString => true
  | String c _ => Ascii.eqb c "."
  end.

End Storage.

Section Endpoints.
Context `{Platform}.

Definition DATA_DIR : string := path_join ROOT_DIR "data".
Definition DB_FILE : string := path_join DATA_DIR "users.json".

(** [file.path] of a stored file: multer's disk storage joins the name that
    [filename] hands it onto the directory that [destination] hands it. *)
Definition file_path (params_username : string) (file : File) : string :=
  path_join
    (Storage.destination path_join params_username)
    (Storage.filename path_extname (now file) (rounded file) (originalname file)).

(** The web path of a stored file, as the update handler computes it. *)
Definition urlPath (params_username : string) (file : File) : string :=
  let relPath :=
    join "/" (split path_sep (path_relative ROOT_DIR (file_path params_username file))) in
  "/" +:+ relPath.

(** The file that the deletion handler goes on to unlink. *)
Definition unlink_path (photoUrl : string) : string :=
  let cleanPath := if startsWith photoUrl "/" then substring 1 photoUrl else photoUrl in
  let filePath := path_join ROOT_DIR cleanPath in
  filePath.

(** [if (fs.existsSync(filePath)) fs.unlinkSync(filePath)], as far as the
    backing file goes: the handler has just written it, so it exists, and
    unlinking it leaves no backing file.  Any other file that is unlinked
    lies outside the state followed here, and an error of the call is
    caught by the handler.  Two paths are taken to name one file when they
    are the same string ([path.join] normalises its result); links, and
    file systems that ignore case, are left out. *)
Definition unlinkSync (filePath : string) (f : DbFile) : DbFile :=
  if decide (filePath = DB_FILE) then NoFile else f.

(** [GET /api/user/:username] *)
Definition get_user (f : DbFile) (params_username : string) : Outcome Response :=
  let username := toLowerCase (trim params_username) in
  db ← loadDb f;
  let user := get (byUsername db) username in
  match user with
  | Undefined =>
      Done {| status := 404; body := JsonError "User not found" |}
  | _ =>
      Done {| status := 200;
              body := JsonUser username
                        (or_string (prop_blessing user) "")
                        (default [] (prop_photos user))
                        (or_null (prop_shortId user)) |}
  end.

(** The handler of [POST /api/config/:username], entered once the upload
    middleware has set [req.files].  [body_blessing] is the text of
    [req.body.blessing || '']. *)
Definition post_config (f : DbFile) (params_username body_blessing : string)
    (files : option (list File)) (rnd : list Random)
  : option (Outcome (Response * DbFile)) :=
  let usernameRaw := trim params_username in
  let username := toLowerCase usernameRaw in
  if negb (truthy username) then
    Some (Done ({| status := 400; body := JsonError "Username is required" |}, f))
  else
    let blessing := trim body_blessing in
    match loadDb f with
    | Raise e => Some (Raise e)
    | Done db =>
        let existing := get (byUsername db) username in
        let photos :=
          default [] (prop_photos existing)
          ++ match files with
             | Some files => map (urlPath params_username) files
             | None => []
             end in
        let generated :=
          match or_null (prop_shortId existing) with
          | Some shortId => Some shortId
          | None => generate_loop (byShortId db) rnd
          end in
        match generated with
        | None => None
        | Some shortId =>
            let db' :=
              {| byUsername :=
                   set (byUsername db) username
                     {| username := username; blessing := blessing;
                        photos := Some photos; shortId := Some shortId |};
                 byShortId := set (byShortId db) shortId username |} in
            let shortUrl := "/u/" +:+ shortId in
            Some (Done ({| status := 200;
                           body := JsonSaved username blessing photos shortId shortUrl |},
                        saveDb db'))
        end
    end.

(** [POST /api/delete-photo/:username].  [photoUrl] is [req.body.photoUrl],
    [None] when the body has no such field.  Once the store is saved the
    file that [photoUrl] leads to is unlinked, whatever file that is. *)
Definition delete_photo (f : DbFile) (params_username : string)
    (photoUrl : option string) : Outcome (Response * DbFile) :=
  let username := toLowerCase (trim params_username) in
  if negb (truthy username) then
    Done ({| status := 400; body := JsonFail "Username is required" |}, f)
  else
    match or_null photoUrl with
    | None =>
        Done ({| status := 400; body := JsonFail "Photo URL is required" |}, f)
    | Some photoUrl =>
        db ← loadDb f;
        match get (byUsername db) username with
        | Undefined =>
            Done ({| status := 404; body := JsonFail "User not found" |}, f)
        | Inherited =>
            Done ({| status := 400; body := JsonFail "No photos found" |}, f)
        | Own user =>
            match photos user with
            | None =>
                Done ({| status := 400; body := JsonFail "No photos found" |}, f)
            | Some user_photos =>
                let photoIndex := indexOf user_photos photoUrl in
                if decide (photoIndex = -1) then
                  Done ({| status := 404;
                           body := JsonFail "Photo not found in user data" |}, f)
                else
                  (* user.photos.splice(photoIndex, 1) changes the array of
                     the profile held by db in place *)
                  let user' :=
                    with_photos user (splice user_photos (Z.to_nat photoIndex) 1) in
                  let db' :=
                    {| byUsername := <[username := user']> (byUsername db);
                       byShortId := byShortId db |} in
                  let f' := saveDb db' in
                  let f' := unlinkSync (unlink_path photoUrl) f' in
                  Done ({| status := 200;
                           body := JsonDeleted "Photo deleted successfully" |}, f')
            end
        end
    end.

(** [GET /u/:shortId] *)
Definition resolve_short (f : DbFile) (params_shortId : string) : Outcome Response :=
  let shortId := trim params_shortId in
  db ← loadDb f;
  let redirect (username : string) :=
    let encoded := encodeURIComponent username in
    {| status := 302; body := Redirect ("/tree.html?user=" +:+ encoded) |} in
  let invalid := {| status := 404; body := Text "Invalid link" |} in
  match get (byShortId db) shortId with
  | Own username => Done (if truthy username then redirect username else invalid)
  | Inherited => Done (redirect (member_text shortId))
  | Undefined => Done invalid
  end.

(** *** The application

    A request, the outcomes of [Math.random()] available to it, and the
    response with the state of the backing file afterwards.  An error
    thrown by a handler or passed on by a middleware reaches the global
    error handler.  [None]: the request is still in the generation loop
    after all of [rnd]. *)
Inductive Request :=
| GET_user (username : string)
| POST_config (username blessing : string) (upload : Upload)
| POST_delete_photo (username : string) (photoUrl : option string)
| GET_u (shortId : string).

Definition serve (f : DbFile) (req : Request) (rnd : list Random)
  : option (Response * DbFile) :=
  match req with
  | GET_user username =>
      match get_user f username with
      | Done res => Some (res, f)
      | Raise err => Some (error_handler err, f)
      end
  | POST_config username blessing upload =>
      match upload_array "photos" 20 upload with
      | Raise err => Some (error_handler err, f)
      | Done files =>
          match post_config f username blessing files rnd with
          | None => None
          | Some (Done out) => Some out
          | Some (Raise err) => Some (error_handler err, f)
          end
      end
  | POST_delete_photo username photoUrl =>
      match delete_photo f username photoUrl with
      | Done out => Some out
      | Raise err => Some (error_handler err, f)
      end
  | GET_u shortId =>
      match resolve_short f shortId with
      | Done res => Some (res, f)
      | Raise err => Some (error_handler err, f)
      end
  end.

(** The states of the backing file that the API can bring about, starting
    from a file that loads as the empty store. *)
Inductive reachable : DbFile → Prop :=
| reachable_fresh f :
    loadDb f = Done emptyStore → reachable f
| reachable_step f req rnd res f' :
    reachable f → serve f req rnd = Some (res, f') → reachable f'.

End Endpoints.

(** ** Properties of a store *)

(** No two profiles hold the same non-empty short id. *)
Definition unique_shortIds (db : Store) : Prop :=
  ∀ u v p q s,
    byUsername db !! u = Some p → byUsername db !! v = Some q →
    shortId p = Some s → shortId q = Some s → s ≠ "" → u = v.

(** Every profile with a short id has the entry of [byShortId] under that id,
    and the entry names the profile's username. *)
Definition bidirectional (db : Store) : Prop :=
  ∀ u p s,
    byUsername db !! u = Some p → shortId p = Some s →
    byShortId db !! s = Some u.

(** No short id is registered for the empty username. *)
Definition owners_named (db : Store) : Prop :=
  ∀ s u, byShortId db !! s = Some u → u ≠ "".

(** What the handlers write: profiles under non-empty usernames, carrying
    their username, a short id and an array of non-empty paths. *)
Definition profiles_wellformed (db : Store) : Prop :=
  ∀ u p, byUsername db !! u = Some p →
    u ≠ "" ∧ username p = u
    ∧ (∃ s, shortId p = Some s)
    ∧ (∃ l, photos p = Some l ∧ Forall (λ x, x ≠ "") l).

(** No photo path of a profile leads the delete handler to the backing
    file of the store. *)
Definition photos_safe `{Platform} (db : Store) : Prop :=
  ∀ u p l, byUsername db !! u = Some p → photos p = Some l →
    Forall (λ x, unlink_path x ≠ DB_FILE) l.

(** Number of entries of [l] equal to [x]. *)
Definition occurrences (x : string) (l : list string) : nat :=
  length (filter (λ y, y = x) l).

(** The errors the upload middleware can pass on. *)
Definition upload_error (e : JsError) : Prop :=
  (∃ code field, e = MulterError code field)
  ∨ e = Error "Only image uploads are allowed".

(** The photo sequence of the profile stored for [u], empty when there is
    none. *)
Definition prior_photos (db : Store) (u : string) : list string :=
  match byUsername db !! u with
  | Some p => default [] (photos p)
  | None => []
  end.

(** The files a request uploads. *)
Definition uploaded (upload : Upload) : list File :=
  match upload with
  | Multipart parts => parts
  | NotMultipart => []
  end.

(** The store the update handler saves: the profile assigned under [u], the
    short id registered for [u]. *)
Definition saved_store (db : Store) (u b : string) (ph : list string) (sid : string)
  : Store :=
  {| byUsername :=
       set (byUsername db) u
         {| username := u; blessing := b; photos := Some ph; shortId := Some sid |};
     byShortId := set (byShortId db) sid u |}.

(** ** Texts and their characters *)

Lemma string_app_nil (t : string) : "" +:+ t = t.
Proof. reflexivity. Qed.

Lemma string_app_cons c (s t : string) : String c s +:+ t = String c (s +:+ t).
Proof. reflexivity. Qed.

Lemma string_app_assoc (s1 s2 s3 : string) : (s1 +:+ s2) +:+ s3 = s1 +:+ (s2 +:+ s3).
Proof.
  induction s1 as [|c s1 IH]; [done|].
  rewrite !string_app_cons. by f_equal.
Qed.

(** Two texts cut at the first occurrence of a character agree part by
    part. *)
Lemma string_cut_first c s1 t1 s2 t2 :
  s1 +:+ String c t1 = s2 +:+ String c t2 →
  c ∉ list_ascii_of_string s1 → c ∉ list_ascii_of_string s2 →
  s1 = s2 ∧ t1 = t2.
Proof.
  revert s2. induction s1 as [|a s1 IH]; intros [|b s2];
    rewrite ?string_app_nil, ?string_app_cons; simpl.
  - intros [= ->]. done.
  - intros [= <- _] _ Hb. by apply not_elem_of_cons in Hb as [? _].
  - intros [= -> _] Ha _. by apply not_elem_of_cons in Ha as [? _].
  - intros [= <- Heq] Ha Hb.
    apply not_elem_of_cons in Ha as [_ Ha]. apply not_elem_of_cons in Hb as [_ Hb].
    destruct (IH _ Heq Ha Hb) as [-> ->]. done.
Qed.

(** Two texts cut at the last occurrence of a character have the same
    tail. *)
Lemma string_cut_last c s1 t1 s2 t2 :
  s1 +:+ String c t1 = s2 +:+ String c t2 →
  c ∉ list_ascii_of_string t1 → c ∉ list_ascii_of_string t2 →
  t1 = t2.
Proof.
  intros Heq H1 H2.
  revert s2 Heq. induction s1 as [|a s1 IH]; intros [|b s2];
    rewrite ?string_app_nil, ?string_app_cons.
  - by intros [= ->].
  - intros [= <- ->]. exfalso. apply H1. clear.
    induction s2 as [|b s2 IH]; simpl; [left|by right].
  - intros [= -> <-]. exfalso. apply H2. clear.
    induction s1 as [|b s1 IH]; simpl; [left|by right].
  - intros [= <- Heq]. by eapply IH.
Qed.

Lemma list_ascii_app (s t : string) :
  list_ascii_of_string (s +:+ t) = list_ascii_of_string s ++ list_ascii_of_string t.
Proof.
  induction s as [|a s IH]; [done|].
  rewrite string_app_cons. simpl. by f_equal.
Qed.

Lemma string_rev_app (s t : string) : String.rev_app s t = String.rev s +:+ t.
Proof.
  unfold String.rev. revert t. induction s as [|a s IH]; intros t; [done|].
  simpl. rewrite (IH (String a "")), (IH (String a t)).
  by rewrite string_app_assoc, string_app_cons, string_app_nil.
Qed.

Lemma string_rev_cons a (s : string) :
  String.rev (String a s) = String.rev s +:+ String a "".
Proof. unfold String.rev at 1. simpl. apply string_rev_app. Qed.

Lemma list_ascii_rev (s : string) c :
  c ∈ list_ascii_of_string (String.rev s) ↔ c ∈ list_ascii_of_string s.
Proof.
  induction s as [|a s IH]; [done|].
  rewrite string_rev_cons, list_ascii_app, elem_of_app, IH.
  change (list_ascii_of_string (String a s)) with (a :: list_ascii_of_string s).
  change (list_ascii_of_string (String a "")) with [a].
  rewrite !elem_of_cons, elem_of_nil. tauto.
Qed.

(** The pieces that [split] cuts a text into are made of its characters,
    the separator apart, and [join] puts them together again. *)
Lemma split_go_chars sep cur s x c :
  x ∈ split_go sep cur s → c ∈ list_ascii_of_string x →
  c ∈ list_ascii_of_string cur ∨ (c ∈ list_ascii_of_string s ∧ c ≠ sep).
Proof.
  revert cur. induction s as [|a s IH]; intros cur; simpl.
  - intros ->%list_elem_of_singleton Hc. left. by apply list_ascii_rev.
  - destruct (Ascii.eqb_spec a sep) as [->|Hne].
    + intros [->|Hx]%elem_of_cons Hc.
      * left. by apply list_ascii_rev.
      * destruct (IH _ Hx Hc) as [Hnil|[Hs Hsep]]; [by apply elem_of_nil in Hnil|].
        right. split; [by right|done].
    + intros Hx Hc. destruct (IH _ Hx Hc) as [Hcur|[Hs Hsep]].
      * simpl in Hcur. apply elem_of_cons in Hcur as [->|Hcur]; [|by left].
        right. split; [left|done].
      * right. split; [by right|done].
Qed.

Lemma split_chars sep s x c :
  x ∈ split sep s → c ∈ list_ascii_of_string x →
  c ∈ list_ascii_of_string s ∧ c ≠ sep.
Proof.
  intros Hx Hc. destruct (split_go_chars sep "" s x c Hx Hc) as [Hnil|Hs]; [|done].
  by apply elem_of_nil in Hnil.
Qed.

Lemma split_go_cons sep cur s : ∃ x l, split_go sep cur s = x :: l.
Proof.
  revert cur. induction s as [|a s IH]; intros cur; simpl; [eauto|].
  destruct (Ascii.eqb a sep); eauto.
Qed.

Lemma join_cons sep x y l : join sep (x :: y :: l) = x +:+ sep +:+ join sep (y :: l).
Proof. reflexivity. Qed.

Lemma string_app_empty (s : string) : s +:+ "" = s.
Proof. induction s as [|a s IH]; [done|]. rewrite string_app_cons. by f_equal. Qed.

Lemma join_split_go sep cur s :
  join (String sep "") (split_go sep cur s) = String.rev cur +:+ s.
Proof.
  revert cur. induction s as [|a s IH]; intros cur; simpl.
  - by rewrite string_app_empty.
  - destruct (Ascii.eqb_spec a sep) as [->|Hne].
    + destruct (split_go_cons sep "" s) as (y & l & Hl).
      specialize (IH ""). rewrite Hl in *. rewrite join_cons, IH.
      by rewrite string_app_cons, !string_app_nil.
    + by rewrite IH, string_rev_cons, string_app_assoc.
Qed.

Lemma join_split sep s : join (String sep "") (split sep s) = s.
Proof. unfold split. by rewrite join_split_go. Qed.

(** A text is its prefix followed by what comes after the prefix. *)
Lemma prefix_substring (p t : string) (n : nat) :
  String.prefix p t = true → (String.length t ≤ n)%nat →
  p +:+ String.substring (String.length p) n t = t.
Proof.
  revert t n. induction p as [|a p IH]; intros t n.
  - intros _. rewrite string_app_nil. simpl. revert n.
    induction t as [|b t IHt]; intros [|n]; simpl; try done; try lia.
    intros Hn. rewrite IHt; [done|lia].
  - destruct t as [|b t]; simpl; [done|].
    destruct (ascii_dec a b) as [->|]; [|done].
    intros Hpre Hn. rewrite string_app_cons. f_equal. apply IH; [done|lia].
Qed.

(** ** A concrete platform

    POSIX paths and ASCII strings: enough to run the endpoints on examples. *)
Module Posix.

Fixpoint strip_left (s : string) : string :=
  match s with
  | String c s' => if Ascii.is_space c then strip_left s' else s
  | EmptyString => s
  end.

Definition strip (s : string) : string :=
  String.rev (strip_left (String.rev (strip_left s))).

Definition lower (c : ascii) : ascii :=
  let n := nat_of_ascii c in
  if (Nat.leb 65 n && Nat.leb n 90)%bool then ascii_of_nat (n + 32) else c.

Fixpoint lowercase (s : string) : string :=
  match s with
  | String c s' => String (lower c) (lowercase s')
  | EmptyString => EmptyString
  end.

(** [path.relative(from, to)] for a [to] below [from]. *)
Definition relative (from to : string) : string :=
  let dir := from +:+ "/" in
  if String.prefix dir to
  then String.substring (String.length dir) (String.length to) to
  else to.

Definition unreserved (c : ascii) : bool :=
  let n := nat_of_ascii c in
  (Nat.leb 65 n && Nat.leb n 90) || (Nat.leb 97 n && Nat.leb n 122)
  || (Nat.leb 48 n && Nat.leb n 57)
  || bool_decide (c ∈ list_ascii_of_string "-_.!~*'()").

Definition hex (n : nat) : ascii :=
  nth n (list_ascii_of_string "0123456789ABCDEF") "0"%char.

Fixpoint percent_encode (s : string) : string :=
  match s with
  | String c s' =>
      if unreserved c then String c (percent_encode s')
      else let n := nat_of_ascii c in
           String "%" (String (hex (n / 16)) (String (hex (n mod 16)) (percent_encode s')))
  | EmptyString => EmptyString
  end.

Definition member (k : string) : string :=
  if decide (k = "__proto__") then "[object Object]"
  else if decide (k = "constructor") then "function Object() { [native code] }"
  else "function " +:+ k +:+ "() { [native code] }".

(** [path.join] of a directory and a relative path, neither of which needs
    normalising. *)
Definition joined (dir rest : string) : string := dir +:+ "/" +:+ rest.

(** [path.extname]: the last segment of the path from its last dot on, when
    there is text before that dot. *)
Definition extname (p : string) : string :=
  let base := default "" (last (split "/" p)) in
  match reverse (split "." base) with
  | ext :: stem :: more =>
      if decide (base = "..") then ""
      else if truthy (join "." (reverse (stem :: more))) then "." +:+ ext
      else ""
  | _ => ""
  end.

Definition root : string := "/srv/christmas".

Lemma extname_segment originalname c :
  c ∈ list_ascii_of_string (extname originalname) →
  c ≠ "/"%char ∧ c ≠ "/"%char.
Proof.
  unfold extname.
  set (base := default "" (last (split "/" originalname))).
  assert (Hbase : ∀ a, a ∈ list_ascii_of_string base → a ≠ "/"%char).
  { subst base. destruct (last (split "/" originalname)) as [b|] eqn:Hlast; simpl.
    - intros a Ha. apply last_Some_elem_of in Hlast.
      by destruct (split_chars _ _ _ _ Hlast Ha).
    - intros a Ha. by apply elem_of_nil in Ha. }
  destruct (reverse (split "." base)) as [|ext [|stem more]] eqn:Hrev;
    try (intros Hc; by apply elem_of_nil in Hc).
  destruct (decide (base = ".."));
    [intros Hc; by apply elem_of_nil in Hc|].
  destruct (truthy _); [|intros Hc; by apply elem_of_nil in Hc].
  rewrite string_app_cons, string_app_nil. simpl.
  intros [->|Hc]%elem_of_cons; [done|].
  assert (Hext : ext ∈ split "." base).
  { apply elem_of_reverse. rewrite Hrev. left. }
  destruct (split_chars _ _ _ _ Hext Hc) as [Hin _].
  by specialize (Hbase _ Hin).
Qed.

Lemma joined_relative dir name :
  plain "/" name →
  joined root (join "/" (split "/" (relative root (joined dir name))))
  = joined (joined root "data") "users.json" →
  name = "users.json".
Proof.
  intros (_ & _ & _ & Hname). rewrite join_split.
  assert (Hslash : "/"%char ∉ list_ascii_of_string name).
  { intros Hin. by destruct (Hname _ Hin). }
  assert (Hdb : "/"%char ∉ list_ascii_of_string "users.json").
  { simpl. rewrite !not_elem_of_cons. split_and!; try discriminate.
    apply not_elem_of_nil. }
  unfold relative.
  destruct (String.prefix (root +:+ "/") (joined dir name)) eqn:Hpre.
  - unfold joined at 1. rewrite <- string_app_assoc.
    rewrite prefix_substring by done.
    unfold joined. intros Heq. by eapply string_cut_last.
  - assert (Hassoc : joined root (joined dir name)
                     = (root +:+ "/" +:+ dir) +:+ String "/" name).
    { unfold joined. by rewrite !string_app_assoc. }
    rewrite Hassoc. unfold joined. intros Heq. by eapply string_cut_last.
Qed.

Definition platform : Platform :=
  {| trim := strip;
     toLowerCase := lowercase;
     path_relative := relative;
     path_join := joined;
     path_extname := extname;
     path_sep := "/"%char;
     encodeURIComponent := percent_encode;
     member_text := member;
     ROOT_DIR := root;
     path_sep_cases := or_introl eq_refl;
     path_extname_segment := extname_segment;
     path_join_relative := joined_relative |}.

End Posix.

(** ** Sample data *)

Module Sample.

(** Two outcomes of [Math.random()]: 0.5, which prints as ["0.i"], and a
    number that prints as ["0.4fzyo82mvyr"]. *)
Definition half : Random :=
  {| frac := [18%nat]; frac_digits := eq_refl |}.
Definition typical : Random :=
  {| frac := [4; 15; 35; 34; 24; 8; 2; 22; 31; 34; 27]%nat; frac_digits := eq_refl |}.

Definition picture : File :=
  {| fieldname := "photos"; originalname := "tree.png";
     mimetype := Some "image/png";
     now := 1735000000000; rounded := 42 |}.

Definition candle : File :=
  {| fieldname := "photos"; originalname := "candle.jpeg";
     mimetype := Some "image/jpeg";
     now := 1735000000500; rounded := 977 |}.

Definition letter : File :=
  {| fieldname := "photos"; originalname := "letter.txt";
     mimetype := Some "text/plain";
     now := 1735000000001; rounded := 43 |}.

(** The store after [POST /api/config/Alice%20] with the blessing
    ["hello"] and [picture], on a fresh installation. *)
Definition alice_store : Store :=
  saved_store emptyStore "alice" "hello"
    ["/uploads/photos/alice/1735000000000-42.png"] "4fzyo8".

(** A profile whose album shows one picture twice. *)
Definition carol : Profile :=
  {| username := "carol"; blessing := "merry christmas";
     photos := Some ["/uploads/photos/carol/a.png"; "/uploads/photos/carol/b.png";
                     "/uploads/photos/carol/a.png"];
     shortId := Some "k3x9qz" |}.

Definition carol_store : Store :=
  {| byUsername := {[ "carol" := carol ]};
     byShortId := {[ "k3x9qz" := "carol" ]} |}.

(** Two store files written by hand, in which an album lists the backing
    file of the store itself, once and twice. *)
Definition eve : Profile :=
  {| username := "eve"; blessing := "peace";
     photos := Some ["/uploads/photos/eve/a.png"; "/data/users.json"];
     shortId := Some "e5v7e9" |}.

Definition eve_store : Store :=
  {| byUsername := {[ "eve" := eve ]};
     byShortId := {[ "e5v7e9" := "eve" ]} |}.

Definition mallory : Profile :=
  {| username := "mallory"; blessing := "";
     photos := Some ["/data/users.json"; "/uploads/photos/mallory/a.png";
                     "/data/users.json"];
     shortId := Some "m4l0ry" |}.

Definition mallory_store : Store :=
  {| byUsername := {[ "mallory" := mallory ]};
     byShortId := {[ "m4l0ry" := "mallory" ]} |}.

(** A store file written by hand: a profile under the empty username,
    with its short id registered for it. *)
Definition nameless : Profile :=
  {| username := ""; blessing := ""; photos := Some []; shortId := Some "4fzyo8" |}.

Definition nameless_store : Store :=
  {| byUsername := {[ "" := nameless ]};
     byShortId := {[ "4fzyo8" := "" ]} |}.

End Sample.

(** ** Sequences of requests *)

Section Evolution.
Context `{Platform}.

(** One request served. *)
Definition step (f f' : DbFile) : Prop :=
  ∃ req rnd res, serve f req rnd = Some (res, f').

(** Any number of requests served, one after the other. *)
Definition later (f f' : DbFile) : Prop := rtc step f f'.

End Evolution.

(** ** The listing of a directory

    [listFilesRecursively] walks a directory with [fs.readdirSync] and
    [fs.statSync].  What the two calls see at a path is a file or a
    directory; a directory holds its entries in the order [readdirSync]
    returns them.  (Symbolic links that lead back into the tree, and
    directories that may not be read, are left out.) *)
Module Listing.

#[warnings="-register-all"]
Inductive Entry :=
| IsFile
| IsDirectory (entries : list (string * Entry)).

Section Walk.
Variable path_join : string → string → string.  (* path.join *)

(** [listFilesRecursively(dirPath, fileList)], where [node] is what the file
    system has at [dirPath].  [fileList] is the array the calls share: each
    file found is pushed onto it, and it is what the function returns. *)
Fixpoint listFilesRecursively (dirPath : string) (node : Entry)
    (fileList : list string) {struct node} : Outcome (list string) :=
  match node with
  | IsFile => Raise (Error "ENOTDIR: not a directory, scandir")
  | IsDirectory entries =>
      (fix forEach (files : list (string * Entry)) (fileList : list string)
         : Outcome (list string) :=
         match files with
         | [] => Done fileList
         | (file, child) :: rest =>
             let fullPath := path_join dirPath file in
             match child with
             | IsDirectory _ =>
                 fileList ← listFilesRecursively fullPath child fileList;
                 forEach rest fileList
             | IsFile => forEach rest (fileList ++ [fullPath])
             end
         end) entries fileList
  end.

End Walk.

(** The files below a directory, each given by the names on the way down to
    it, directory by directory in the order of the entries. *)
Fixpoint branches (node : Entry) : list (list string) :=
  match node with
  | IsFile => [[]]
  | IsDirectory entries =>
      (fix below (files : list (string * Entry)) : list (list string) :=
         match files with
         | [] => []
         | (file, child) :: rest => map (cons file) (branches child) ++ below rest
         end) entries
  end.

End Listing.

(** ** More sample data *)

Module Fixture.

(** The extension of a name of the form [stem.ext]. *)
Definition extension (name : string) : string :=
  match split "." name with
  | [_; ext] => "." +:+ ext
  | _ => ""
  end.

(** [path.join] of a directory and a name free of dots and slashes. *)
Definition join2 (dir name : string) : string := dir +:+ "/" +:+ name.

(** An images directory: two pictures, an empty directory, and a directory
    with one picture in a subdirectory. *)
Definition images : Listing.Entry :=
  Listing.IsDirectory
    [ ("star.png", Listing.IsFile);
      ("empty", Listing.IsDirectory []);
      ("2023", Listing.IsDirectory
                 [ ("december", Listing.IsDirectory [ ("tree.jpg", Listing.IsFile) ]) ]);
      ("bell.png", Listing.IsFile) ].

(** A picture uploaded for carol, and the store after carol's second
    picture is deleted. *)
Definition bauble : File :=
  {| fieldname := "photos"; originalname := "bauble.png";
     mimetype := Some "image/png";
     now := 1735000000002; rounded := 7 |}.

(** The store of [Sample.alice_store] after alice's picture is deleted. *)
Definition alice_bare : Store :=
  {| byUsername :=
       <["alice" := {| username := "alice"; blessing := "hello";
                       photos := Some []; shortId := Some "4fzyo8" |}]>
         (byUsername Sample.alice_store);
     byShortId := byShortId Sample.alice_store |}.

Definition carol_pruned : Store :=
  {| byUsername :=
       <["carol" := with_photos Sample.carol
                      ["/uploads/photos/carol/a.png"; "/uploads/photos/carol/a.png"]]>
         (byUsername Sample.carol_store);
     byShortId := byShortId Sample.carol_store |}.

End Fixture.

(** * Properties *)

(** ** Loading the store *)

Lemma loadDb_total f : ∃ db, loadDb f = Done db.
Proof. destruct f; simpl; eauto. Qed.

Lemma loadDb_never_raises f e : loadDb f ≠ Raise e.
Proof. destruct f; discriminate. Qed.

Lemma loadDb_Saved db : loadDb (Saved db) = Done db.
Proof. reflexivity. Qed.

(** C8: when the backing file is missing or holds text that does not parse,
    [loadDb] returns the empty store [{byUsername: {}, byShortId: {}}], and it
    raises no error to its caller. *)
Theorem loadDb_fails_open f :
  f = NoFile ∨ (∃ raw, f = Garbage raw) →
  loadDb f = Done emptyStore ∧ ∀ e, loadDb f ≠ Raise e.
Proof.
  intros Hf. split; [|intros e; apply loadDb_never_raises].
  destruct Hf as [->|[raw ->]]; reflexivity.
Qed.

Lemma loadDb_fails_open_witness :
  loadDb (Garbage "{ byUsername: ") = Done emptyStore
  ∧ ∀ e, loadDb (Garbage "{ byUsername: ") ≠ Raise e.
Proof. apply (loadDb_fails_open (Garbage "{ byUsername: ")). right. eexists. reflexivity. Defined.

(** ** The short-id generator *)

Lemma substring_0_chars n s :
  list_ascii_of_string (String.substring 0 n s) = take n (list_ascii_of_string s).
Proof.
  revert s. induction n as [|n IH]; intros [|c s]; simpl; try reflexivity.
  by rewrite IH.
Qed.

Lemma substring_0_length n s : (String.length (String.substring 0 n s) ≤ n)%nat.
Proof.
  revert s. induction n as [|n IH]; intros [|c s]; simpl; try lia.
  specialize (IH s). lia.
Qed.

Lemma digit_in_chars d : (d < 36)%nat → digit d ∈ digit_chars.
Proof.
  intros Hd. unfold digit. apply list_elem_of_In, nth_In. simpl. lia.
Qed.

Lemma frac_lt r d : d ∈ frac r → (d < 36)%nat.
Proof.
  intros Hd. pose proof (frac_digits r) as Hall.
  rewrite forallb_forall in Hall. apply list_elem_of_In, Hall in Hd.
  by apply Nat.ltb_lt.
Qed.

(** What the generator always delivers: at most six characters, each a digit
    or a lowercase letter. *)
Lemma generateShortId_chars r :
  (String.length (generateShortId r) ≤ 6)%nat
  ∧ ∀ c, c ∈ list_ascii_of_string (generateShortId r) → c ∈ digit_chars.
Proof.
  unfold generateShortId, slice, toString36.
  destruct (frac r) as [|d ds] eqn:Hfrac.
  { split; [simpl; lia | intros c Hc; simpl in Hc; inversion Hc]. }
  change (String.substring 2 (8 - 2) ("0." +:+ string_of_list_ascii (map digit (d :: ds))))
    with (String.substring 0 6 (string_of_list_ascii (map digit (d :: ds)))).
  set (s := string_of_list_ascii (map digit (d :: ds))).
  assert (Hchars : list_ascii_of_string (String.substring 0 6 s)
                   = take 6 (map digit (d :: ds))).
  { rewrite substring_0_chars. unfold s. by rewrite list_ascii_of_string_of_list_ascii. }
  split.
  - apply substring_0_length.
  - intros c. rewrite Hchars. intros Hc%elem_of_take.
    destruct Hc as (i & Hi & _). apply list_lookup_fmap_Some in Hi as (d' & -> & Hd').
    apply digit_in_chars, (frac_lt r). rewrite Hfrac.
    revert Hd'. apply list_elem_of_lookup_2.
Qed.

(** C2: the generator does not always deliver six characters.  When
    [Math.random()] returns 0.5 its radix-36 text is ["0.i"], and
    [slice(2, 8)] leaves the one-character id ["i"]. *)
Theorem generateShortId_short :
  generateShortId Sample.half = "i"
  ∧ String.length (generateShortId Sample.half) ≠ 6%nat.
Proof. split; [reflexivity | discriminate]. Qed.

(** ** Uploads *)

Lemma error_handler_multer code field :
  error_handler (MulterError code field)
  = {| status := 400; body := JsonError "Only image uploads are allowed" |}.
Proof. reflexivity. Qed.

Lemma error_handler_filter :
  error_handler (Error "Only image uploads are allowed")
  = {| status := 400; body := JsonError "Only image uploads are allowed" |}.
Proof. reflexivity. Qed.

Lemma upload_error_response e :
  upload_error e →
  error_handler e = {| status := 400; body := JsonError "Only image uploads are allowed" |}.
Proof. intros [(code & field & ->)| ->]; reflexivity. Qed.

Lemma fileFilter_cases file :
  (is_image file = true ∧ fileFilter file = Done true)
  ∨ (is_image file = false
     ∧ fileFilter file = Raise (Error "Only image uploads are allowed")).
Proof. unfold fileFilter. destruct (is_image file); auto. Qed.

Lemma multer_files_raises name n parts e :
  multer_files name n parts = Raise e → upload_error e.
Proof.
  revert n. induction parts as [|file rest IH]; intros n; simpl; [discriminate|].
  destruct n as [|n]; [intros [= <-]; left; eauto|].
  case_decide; [|intros [= <-]; left; eauto].
  destruct (fileFilter_cases file) as [[_ ->]|[_ ->]]; simpl.
  - destruct (multer_files name n rest) eqn:Hrest; simpl; [discriminate|].
    intros [= <-]. by eapply IH.
  - intros [= <-]. by right.
Qed.

(** A batch that passes the middleware is handed on whole and in order. *)
Lemma multer_files_done name n parts files :
  multer_files name n parts = Done files →
  files = parts ∧ Forall (λ file, is_image file = true) parts.
Proof.
  revert n files. induction parts as [|file rest IH]; intros n files; simpl.
  { intros [= <-]. auto. }
  destruct n as [|n]; [discriminate|]. case_decide; [|discriminate].
  destruct (fileFilter_cases file) as [[Himg ->]|[_ ->]]; simpl; [|discriminate].
  destruct (multer_files name n rest) as [accepted|] eqn:Hrest; simpl; [|discriminate].
  intros [= <-]. destruct (IH _ _ Hrest) as [-> Hall]. auto.
Qed.

Lemma upload_array_raises name n upload e :
  upload_array name n upload = Raise e → upload_error e.
Proof.
  destruct upload as [|parts]; simpl; [discriminate|].
  destruct (multer_files name n parts) eqn:Hrun; simpl; [discriminate|].
  intros [= <-]. by eapply multer_files_raises.
Qed.

Lemma not_image_prefix file :
  (∀ m, mimetype file = Some m → startsWith m "image/" = false) →
  is_image file = false.
Proof.
  unfold is_image. destruct (mimetype file) as [m|]; [|done].
  intros Hm. rewrite (Hm m eq_refl). apply andb_false_r.
Qed.

Lemma multer_files_rejects name n parts file :
  file ∈ parts → is_image file = false →
  ∃ e, multer_files name n parts = Raise e.
Proof.
  intros Hin Hbad. destruct (multer_files name n parts) as [files|e] eqn:Hrun; [|eauto].
  apply multer_files_done in Hrun as [_ Hall].
  rewrite Forall_forall in Hall. rewrite (Hall _ Hin) in Hbad. discriminate.
Qed.

Lemma truthy_true s : truthy s = true ↔ s ≠ "".
Proof. destruct s; simpl; split; congruence. Qed.

Lemma truthy_false s : truthy s = false ↔ s = "".
Proof. destruct s; simpl; split; congruence. Qed.

Lemma or_null_Some x s : or_null x = Some s ↔ x = Some s ∧ s ≠ "".
Proof.
  unfold or_null. destruct x as [t|]; [|split; [discriminate|intros [[=] _]]].
  destruct (truthy t) eqn:Ht.
  - apply truthy_true in Ht. split; [intros [= <-]; done|by intros [[= <-] _]].
  - apply truthy_false in Ht. split; [discriminate|intros [[= <-] Hs]; done].
Qed.

Lemma get_Own {A} (o : gmap string A) k a : get o k = Own a ↔ o !! k = Some a.
Proof.
  unfold get. destruct (o !! k) as [a'|].
  - split; congruence.
  - case_decide; split; discriminate.
Qed.

Lemma prop_shortId_Some user s :
  prop_shortId user = Some s ↔ ∃ p, user = Own p ∧ shortId p = Some s.
Proof.
  destruct user as [p| |]; simpl.
  - split; [eauto|intros (p' & [= <-] & Hs); done].
  - split; [discriminate|intros (p' & [=] & _)].
  - split; [discriminate|intros (p' & [=] & _)].
Qed.

Lemma prop_photos_prior db u :
  default [] (prop_photos (get (byUsername db) u)) = prior_photos db u.
Proof.
  unfold prior_photos, get. destruct (byUsername db !! u); [done|].
  by case_decide.
Qed.

(** *** Assignment to a property *)

Lemma set_lookup_ne {A} (o : gmap string A) k k' v : k ≠ k' → set o k v !! k' = o !! k'.
Proof. intros Hk. unfold set. case_decide; [done|]. by rewrite lookup_insert_ne. Qed.

Lemma set_lookup_eq {A} (o : gmap string A) k v :
  k ≠ "__proto__" ∨ is_Some (o !! k) → set o k v !! k = Some v.
Proof.
  intros Hk. unfold set. case_decide as Hproto.
  - destruct Hproto as [-> Hnone]. destruct Hk as [|[a Ha]]; congruence.
  - apply lookup_insert_eq.
Qed.

Lemma set_lookup_inv {A} (o : gmap string A) k v a :
  set o k v !! k = Some a → a = v.
Proof.
  unfold set. case_decide as Hproto.
  - destruct Hproto as [_ ->]. discriminate.
  - rewrite lookup_insert_eq. congruence.
Qed.

Lemma set_lookup_cases {A} (o : gmap string A) k v k' a :
  set o k v !! k' = Some a → (k' = k ∧ a = v) ∨ (k' ≠ k ∧ o !! k' = Some a).
Proof.
  destruct (decide (k = k')) as [<-|Hne].
  - intros ->%set_lookup_inv. by left.
  - rewrite set_lookup_ne by done. right. split; congruence.
Qed.

(** *** The generation loop *)

Lemma taken_false m sid :
  taken m sid = false →
  m !! sid = Some "" ∨ (m !! sid = None ∧ sid ∉ Object_prototype_keys).
Proof.
  unfold taken, get. destruct (m !! sid) as [owner|].
  - intros ->%truthy_false. by left.
  - case_decide; [discriminate|]. by right.
Qed.

Lemma generate_loop_free m rnd sid :
  generate_loop m rnd = Some sid → taken m sid = false.
Proof.
  induction rnd as [|r rest IH]; simpl; [discriminate|].
  destruct (taken m (generateShortId r)) eqn:Htaken; [done|].
  by intros [= <-].
Qed.

(** The loop ends as soon as [Math.random()] delivers an id that is free,
    and it returns the first such id. *)
Lemma generate_loop_returns m rnd1 r rnd2 :
  Forall (λ r', taken m (generateShortId r') = true) rnd1 →
  taken m (generateShortId r) = false →
  generate_loop m (rnd1 ++ r :: rnd2) = Some (generateShortId r).
Proof.
  intros Hbusy Hfree. induction Hbusy as [|r' rnd1 Hr' _ IH]; simpl.
  - by rewrite Hfree.
  - by rewrite Hr'.
Qed.

(** *** Searching and cutting a photo sequence *)

Lemma indexOf_notin l x : x ∉ l → indexOf l x = -1.
Proof.
  induction l as [|y l IH]; simpl; [done|].
  intros Hx. apply not_elem_of_cons in Hx as [Hne Hx].
  rewrite decide_False by done. rewrite (IH Hx). done.
Qed.

Lemma indexOf_bounds l x : indexOf l x = -1 ∨ 0 ≤ indexOf l x.
Proof.
  induction l as [|y l IH]; simpl; [by left|].
  case_decide; [right; lia|]. case_decide; [by left|right; lia].
Qed.

Lemma indexOf_first l1 l2 x :
  x ∉ l1 → indexOf (l1 ++ x :: l2) x = Z.of_nat (length l1).
Proof.
  induction l1 as [|y l1 IH]; simpl.
  - intros _. by rewrite decide_True.
  - intros Hx. apply not_elem_of_cons in Hx as [Hne Hx].
    rewrite decide_False by done. rewrite (IH Hx).
    rewrite decide_False by lia. lia.
Qed.

Lemma splice_one {A} (l1 l2 : list A) x :
  splice (l1 ++ x :: l2) (length l1) 1 = l1 ++ l2.
Proof.
  unfold splice. rewrite take_app_length.
  rewrite (drop_app_add l1 (x :: l2) 1). done.
Qed.

Lemma occurrences_app x l1 l2 :
  occurrences x (l1 ++ l2) = (occurrences x l1 + occurrences x l2)%nat.
Proof. unfold occurrences. by rewrite filter_app, length_app. Qed.

Lemma occurrences_cons_eq x l : occurrences x (x :: l) = S (occurrences x l).
Proof. unfold occurrences. by rewrite filter_cons_True. Qed.

Lemma occurrences_zero x l : occurrences x l = 0%nat ↔ x ∉ l.
Proof.
  unfold occurrences. split.
  - intros Hlen Hin. apply length_zero_iff_nil in Hlen.
    by apply (filter_nil_not_elem_of _ _ x Hlen).
  - intros Hx. induction l as [|y l IH]; [done|].
    apply not_elem_of_cons in Hx as [Hne Hx].
    rewrite filter_cons_False by congruence. auto.
Qed.

Lemma occurrences_pos x l : (0 < occurrences x l)%nat → x ∈ l.
Proof.
  intros Hpos. destruct (decide (x ∈ l)) as [|Hx]; [done|].
  apply occurrences_zero in Hx. lia.
Qed.

(** *** Consistency of the two maps *)

Lemma bidirectional_unique db : bidirectional db → unique_shortIds db.
Proof.
  intros Hbi u v p q s Hp Hq Hps Hqs _.
  pose proof (Hbi _ _ _ Hp Hps) as Hu. pose proof (Hbi _ _ _ Hq Hqs) as Hv.
  congruence.
Qed.

Lemma bidirectional_empty : bidirectional emptyStore ∧ owners_named emptyStore.
Proof.
  split.
  - intros u p s Hp. simpl in Hp. by rewrite lookup_empty in Hp.
  - intros s u Hs. simpl in Hs. by rewrite lookup_empty in Hs.
Qed.

(** The saved store is consistent when the id is the one the profile had,
    or an id that no profile holds and whose assignment creates the entry. *)
Lemma saved_store_bidirectional db u b ph sid :
  bidirectional db →
  (∃ p, byUsername db !! u = Some p ∧ shortId p = Some sid)
  ∨ ((∀ v q, byUsername db !! v = Some q → shortId q ≠ Some sid)
     ∧ (sid ≠ "__proto__" ∨ is_Some (byShortId db !! sid))) →
  bidirectional (saved_store db u b ph sid).
Proof.
  intros Hbi Hsid v q s Hq Hs. simpl in Hq |- *.
  assert (Hset : set (byShortId db) sid u !! sid = Some u).
  { apply set_lookup_eq. destruct Hsid as [(p & Hp & Hps)|[_ Hfresh]]; [|done].
    right. rewrite (Hbi _ _ _ Hp Hps). eauto. }
  apply set_lookup_cases in Hq as [[-> ->]|[Hne Hq]].
  - simpl in Hs. by injection Hs as <-.
  - pose proof (Hbi _ _ _ Hq Hs) as Hv.
    destruct (decide (s = sid)) as [->|Hs'].
    + destruct Hsid as [(p & Hp & Hps)|[Hnone _]].
      * rewrite (Hbi _ _ _ Hp Hps) in Hv. congruence.
      * by destruct (Hnone _ _ Hq).
    + by rewrite set_lookup_ne.
Qed.

Lemma saved_store_owners db u b ph sid :
  owners_named db → u ≠ "" → owners_named (saved_store db u b ph sid).
Proof.
  intros Hown Hu s v Hs. simpl in Hs.
  apply set_lookup_cases in Hs as [[_ ->]|[_ Hs]]; [done|]. by eapply Hown.
Qed.

Section Properties.
Context `{Platform}.

(** C3: an update request with a file part whose declared content type
    does not begin with ["image/"] is answered with status 400 and the body
    [{error: "Only image uploads are allowed"}]; the handler is not run,
    so the backing file, and with it every photo sequence, stays as it
    was. *)
Theorem non_image_upload_rejected f name blessing parts rnd file :
  file ∈ parts →
  (∀ m, mimetype file = Some m → startsWith m "image/" = false) →
  serve f (POST_config name blessing (Multipart parts)) rnd
  = Some ({| status := 400; body := JsonError "Only image uploads are allowed" |}, f).
Proof.
  intros Hin Hbad%not_image_prefix. simpl.
  destruct (multer_files_rejects "photos" 20 parts file Hin Hbad) as [e He].
  rewrite He. simpl. apply multer_files_raises in He.
  by rewrite (upload_error_response e He).
Qed.

(** *** The update handler, case by case *)

Lemma post_config_inv f name b files rnd res f' :
  post_config f name b files rnd = Some (Done (res, f')) →
  let u := toLowerCase (trim name) in
  (u = "" ∧ f' = f
   ∧ res = {| status := 400; body := JsonError "Username is required" |})
  ∨ (u ≠ "" ∧ ∃ db sid,
       loadDb f = Done db
       ∧ match or_null (prop_shortId (get (byUsername db) u)) with
         | Some s => Some s
         | None => generate_loop (byShortId db) rnd
         end = Some sid
       ∧ let ph := prior_photos db u
                   ++ match files with Some fs => map (urlPath name) fs | None => [] end in
         res = {| status := 200;
                  body := JsonSaved u (trim b) ph sid ("/u/" +:+ sid) |}
         ∧ f' = Saved (saved_store db u (trim b) ph sid)).
Proof.
  unfold post_config. intros Hrun. set (u := toLowerCase (trim name)) in *.
  destruct (truthy u) eqn:Hu; simpl in Hrun.
  - right. apply truthy_true in Hu. split; [done|].
    destruct (loadDb_total f) as [db Hdb]. rewrite Hdb in Hrun.
    exists db.
    destruct (match or_null (prop_shortId (get (byUsername db) u)) with
              | Some s => Some s
              | None => generate_loop (byShortId db) rnd
              end) as [sid|] eqn:Hsid; [|discriminate].
    exists sid. rewrite prop_photos_prior in Hrun.
    by simplify_eq.
  - left. apply truthy_false in Hu. by simplify_eq.
Qed.

Lemma post_config_never_raises f name b files rnd e :
  post_config f name b files rnd ≠ Some (Raise e).
Proof.
  unfold post_config. destruct (truthy _); [|discriminate].
  destruct (loadDb_total f) as [db ->].
  by destruct (match or_null _ with Some s => Some s | None => _ end).
Qed.

(** A successful update, seen from the application. *)
Lemma serve_update_inv f name b upload rnd res f' :
  serve f (POST_config name b upload) rnd = Some (res, f') →
  status res = 200%nat →
  let u := toLowerCase (trim name) in
  u ≠ "" ∧ ∃ db sid,
    loadDb f = Done db
    ∧ match or_null (prop_shortId (get (byUsername db) u)) with
      | Some s => Some s
      | None => generate_loop (byShortId db) rnd
      end = Some sid
    ∧ let ph := prior_photos db u ++ map (urlPath name) (uploaded upload) in
      res = {| status := 200; body := JsonSaved u (trim b) ph sid ("/u/" +:+ sid) |}
      ∧ f' = Saved (saved_store db u (trim b) ph sid).
Proof.
  intros Hrun Hok u. simpl in Hrun.
  destruct (upload_array "photos" 20 upload) as [files|e] eqn:Hup.
  - destruct (post_config f name b files rnd) as [[[res0 f0]|e]|] eqn:Hpost;
      [|by apply post_config_never_raises in Hpost|discriminate].
    simplify_eq.
    apply post_config_inv in Hpost as [(_ & _ & ->)|(Hu & db & sid & Hdb & Hsid & Hres)];
      [discriminate|].
    split; [done|]. exists db, sid. split_and!; try done.
    assert (match files with Some fs => map (urlPath name) fs | None => [] end
            = map (urlPath name) (uploaded upload)) as <-; [|done].
    destruct upload as [|parts]; simpl in Hup.
    + by injection Hup as <-.
    + destruct (multer_files "photos" 20 parts) as [fs|] eqn:Hfs; [|discriminate].
      injection Hup as <-. by apply multer_files_done in Hfs as [-> _].
  - simplify_eq. apply upload_array_raises in Hup.
    rewrite (upload_error_response e Hup) in Hok. discriminate.
Qed.

(** The id the handler settles on is the profile's own, or one that no
    profile holds, provided no profile holds an id registered for the
    empty username. *)
Lemma assigned_id_cases db u rnd sid :
  bidirectional db →
  (∀ v q s, byUsername db !! v = Some q → shortId q = Some s →
            byShortId db !! s ≠ Some "") →
  match or_null (prop_shortId (get (byUsername db) u)) with
  | Some s => Some s
  | None => generate_loop (byShortId db) rnd
  end = Some sid →
  (∃ p, byUsername db !! u = Some p ∧ shortId p = Some sid)
  ∨ ((∀ v q, byUsername db !! v = Some q → shortId q ≠ Some sid)
     ∧ (sid ≠ "__proto__" ∨ is_Some (byShortId db !! sid))).
Proof.
  intros Hbi Hnamed Hsid.
  destruct (or_null (prop_shortId (get (byUsername db) u))) as [s|] eqn:Hown.
  - left. injection Hsid as ->.
    apply or_null_Some in Hown as [(p & Hp & Hs)%prop_shortId_Some _].
    apply get_Own in Hp. eauto.
  - right. apply generate_loop_free, taken_false in Hsid.
    split.
    + intros v q Hq Hs. pose proof (Hbi _ _ _ Hq Hs) as Hv.
      destruct Hsid as [Hempty|[Hnone _]]; [|congruence].
      by apply (Hnamed _ _ _ Hq Hs).
    + destruct Hsid as [->|[_ Hkey]]; [right; eauto|left].
      intros ->. apply Hkey. unfold Object_prototype_keys. set_solver.
Qed.

Lemma post_config_existing f db name b files rnd p s :
  let u := toLowerCase (trim name) in
  loadDb f = Done db → u ≠ "" →
  byUsername db !! u = Some p → shortId p = Some s → s ≠ "" →
  let ph := prior_photos db u
            ++ match files with Some fs => map (urlPath name) fs | None => [] end in
  post_config f name b files rnd
  = Some (Done ({| status := 200;
                   body := JsonSaved u (trim b) ph s ("/u/" +:+ s) |},
                Saved (saved_store db u (trim b) ph s))).
Proof.
  intros u Hdb Hu Hp Hs Hne ph. unfold post_config. fold u.
  apply truthy_true in Hu. rewrite Hu. simpl. rewrite Hdb.
  assert (Hget : get (byUsername db) u = Own p) by by apply get_Own.
  assert (Hown : or_null (prop_shortId (get (byUsername db) u)) = Some s).
  { apply or_null_Some. rewrite Hget. done. }
  rewrite Hown, prop_photos_prior. done.
Qed.

(** The web path of a stored file, spelled out: the file lies in the
    directory of the user under [uploads/photos], under the name made of
    the clock reading, the random number and the extension; its path
    relative to [ROOT_DIR] is cut at the separators, put together with
    slashes and led by a slash. *)
Lemma urlPath_spelled name file :
  let u := toLowerCase (trim name) in
  u ≠ "" →
  urlPath name file
  = "/" +:+ join "/"
      (split path_sep
         (path_relative ROOT_DIR
            (path_join
               (path_join (path_join (path_join ROOT_DIR "uploads") "photos") u)
               (pretty (now file) +:+ "-" +:+ pretty (rounded file)
                +:+ match path_extname (originalname file) with
                    | "" => ".jpg"
                    | ext => ext
                    end)))).
Proof.
  intros u Hu. unfold urlPath, file_path, Storage.destination, Storage.filename,
    Storage.PHOTO_DIR, Storage.UPLOADS_DIR. fold u.
  apply truthy_true in Hu. simpl. rewrite Hu.
  destruct (path_extname (originalname file)); simpl; by rewrite string_app_assoc.
Qed.

Lemma join_chars sep l c :
  c ∈ list_ascii_of_string (join sep l) →
  c ∈ list_ascii_of_string sep ∨ ∃ x, x ∈ l ∧ c ∈ list_ascii_of_string x.
Proof.
  induction l as [|x [|y l] IH].
  - intros Hc. by apply elem_of_nil in Hc.
  - intros Hc. right. exists x. split; [left|done].
  - rewrite join_cons, !list_ascii_app, !elem_of_app.
    intros [Hx|[Hsep|Hrest]].
    + right. exists x. split; [left|done].
    + by left.
    + destruct (IH Hrest) as [Hsep|(z & Hz & Hc)]; [by left|].
      right. exists z. split; [by right|done].
Qed.

(** C4: after a successful update the photo sequence of the profile, in
    the response and in the store, is the sequence the profile had before,
    in its order, followed by the web paths of the uploaded files in the
    order of the upload.  The web path of a file is a slash followed by the
    path of the stored file relative to [ROOT_DIR], with slashes in the
    place of the separators of the platform: when the separator is not the
    slash, no new entry contains it.  (Under the name ["__proto__"] the
    assignment to [db.byUsername] stores nothing unless the store already
    has that profile; the response carries the merged sequence all the
    same.) *)
Theorem update_appends_photos f db name b upload rnd res f' :
  loadDb f = Done db →
  serve f (POST_config name b upload) rnd = Some (res, f') →
  status res = 200%nat →
  let u := toLowerCase (trim name) in
  let stored file :=
    path_join
      (path_join (path_join (path_join ROOT_DIR "uploads") "photos") u)
      (pretty (now file) +:+ "-" +:+ pretty (rounded file)
       +:+ match path_extname (originalname file) with
           | "" => ".jpg"
           | ext => ext
           end) in
  let web file :=
    "/" +:+ join "/" (split path_sep (path_relative ROOT_DIR (stored file))) in
  let new := map web (uploaded upload) in
  let ph := prior_photos db u ++ new in
  (∃ b' sid, body res = JsonSaved u b' ph sid ("/u/" +:+ sid))
  ∧ (∃ db', loadDb f' = Done db'
       ∧ (∀ p', byUsername db' !! u = Some p' → photos p' = Some ph)
       ∧ (u ≠ "__proto__" ∨ is_Some (byUsername db !! u) →
          is_Some (byUsername db' !! u)))
  ∧ (∀ x c, x ∈ new → c ∈ list_ascii_of_string x → c = path_sep → c = "/"%char).
Proof.
  intros Hdb Hrun Hok u stored web new ph.
  apply serve_update_inv in Hrun as (Hu & db0 & sid & Hdb0 & Hsid & -> & ->); [|done].
  assert (db0 = db) as -> by congruence.
  assert (Hweb : map (urlPath name) (uploaded upload) = new).
  { apply map_ext. intros file. by apply urlPath_spelled. }
  rewrite Hweb. fold u. fold ph.
  split; [simpl; eauto|]. split.
  - eexists. split; [reflexivity|]. simpl. split.
    + intros p' Hp'. apply set_lookup_inv in Hp' as ->. done.
    + intros Hstored. rewrite set_lookup_eq by done. eauto.
  - intros x c (file & -> & _)%list_elem_of_fmap Hc Hsep. subst web. simpl in Hc.
    apply elem_of_cons in Hc as [->|Hc]; [done|].
    apply join_chars in Hc as [Hc|(piece & Hpiece & Hc)].
    + simpl in Hc. by apply list_elem_of_singleton in Hc.
    + by destruct (split_chars _ _ _ _ Hpiece Hc).
Qed.

(** C7: an update of a profile that has a non-empty short id keeps that
    id: the request is answered whatever [Math.random()] delivers, the
    stored profile still carries the id, and a response that reports the
    saved profile reports the same id. *)
Theorem update_keeps_shortId f db name b upload rnd u p s :
  loadDb f = Done db →
  toLowerCase (trim name) = u →
  byUsername db !! u = Some p → shortId p = Some s → s ≠ "" →
  ∃ res f' db',
    serve f (POST_config name b upload) rnd = Some (res, f')
    ∧ loadDb f' = Done db'
    ∧ (∃ p', byUsername db' !! u = Some p' ∧ shortId p' = Some s)
    ∧ (∀ un bl ph sid url, body res = JsonSaved un bl ph sid url → sid = s)
    ∧ (u ≠ "" → ∀ files, upload_array "photos" 20 upload = Done files →
       ∃ bl ph, res = {| status := 200;
                         body := JsonSaved u bl ph s ("/u/" +:+ s) |}).
Proof.
  intros Hdb Hname Hp Hs Hne. simpl.
  destruct (upload_array "photos" 20 upload) as [files|e] eqn:Hup.
  - destruct (decide (u = "")) as [Hu|Hu].
    + unfold post_config. rewrite Hname.
      apply truthy_false in Hu as Hfalsy. rewrite Hfalsy. simpl.
      eexists _, f, db. split_and!; eauto; [discriminate|done].
    + subst u. rewrite (post_config_existing f db name b files rnd p s) by done.
      eexists _, _, _. split_and!; [reflexivity|reflexivity|..].
      * simpl. rewrite set_lookup_eq by eauto. eauto.
      * simpl. congruence.
      * intros _ files' [= <-]. eauto.
  - eexists _, f, db. split_and!; eauto; [|discriminate].
    intros un bl ph sid url. apply upload_array_raises in Hup.
    rewrite (upload_error_response e Hup). discriminate.
Qed.

(** C9, as amended: starting from a store that satisfies bidirectional
    consistency and holds no profile under the empty username, a
    successful update leaves a store with the same two properties: every
    profile with a short id has the entry of [byShortId] under that id,
    naming the profile's username. *)
Theorem update_keeps_bidirectional f db name b upload rnd res f' :
  loadDb f = Done db →
  bidirectional db → byUsername db !! "" = None →
  serve f (POST_config name b upload) rnd = Some (res, f') →
  status res = 200%nat →
  ∃ db', loadDb f' = Done db' ∧ bidirectional db' ∧ byUsername db' !! "" = None.
Proof.
  intros Hdb Hbi Hanon Hrun Hok.
  apply serve_update_inv in Hrun as (Hu & db0 & sid & Hdb0 & Hsid & -> & ->); [|done].
  assert (db0 = db) as -> by congruence.
  eexists. split; [reflexivity|]. split.
  - apply saved_store_bidirectional; [done|].
    apply (assigned_id_cases db _ rnd); [done| |done].
    intros v q s Hq Hs Hempty. rewrite (Hbi _ _ _ Hq Hs) in Hempty.
    injection Hempty as ->. congruence.
  - simpl. by rewrite set_lookup_ne.
Qed.

(** *** The delete handler, case by case *)

Lemma delete_photo_missing f db name url p l :
  let u := toLowerCase (trim name) in
  loadDb f = Done db → u ≠ "" → url ≠ "" →
  byUsername db !! u = Some p → photos p = Some l → url ∉ l →
  delete_photo f name (Some url)
  = Done ({| status := 404; body := JsonFail "Photo not found in user data" |}, f).
Proof.
  intros u Hdb Hu Hurl Hp Hl Hnotin. unfold delete_photo. fold u.
  apply truthy_true in Hu, Hurl. rewrite Hu. simpl. rewrite Hurl, Hdb. simpl.
  apply get_Own in Hp. rewrite Hp, Hl.
  rewrite (indexOf_notin l url Hnotin). done.
Qed.

Lemma unlinkSync_other filePath f : filePath ≠ DB_FILE → unlinkSync filePath f = f.
Proof. intros Hne. unfold unlinkSync. by rewrite decide_False. Qed.

Lemma unlinkSync_backing f : unlinkSync DB_FILE f = NoFile.
Proof. unfold unlinkSync. by rewrite decide_True. Qed.

Lemma unlinkSync_cases filePath f :
  (filePath = DB_FILE ∧ unlinkSync filePath f = NoFile)
  ∨ (filePath ≠ DB_FILE ∧ unlinkSync filePath f = f).
Proof. unfold unlinkSync. case_decide; eauto. Qed.

Lemma unlink_path_slash rest : unlink_path ("/" +:+ rest) = path_join ROOT_DIR rest.
Proof. destruct rest; reflexivity. Qed.

Lemma delete_photo_first f db name url p l1 l2 :
  let u := toLowerCase (trim name) in
  loadDb f = Done db → u ≠ "" → url ≠ "" →
  byUsername db !! u = Some p → photos p = Some (l1 ++ url :: l2) → url ∉ l1 →
  delete_photo f name (Some url)
  = Done ({| status := 200; body := JsonDeleted "Photo deleted successfully" |},
          unlinkSync (unlink_path url)
            (Saved {| byUsername := <[u := with_photos p (l1 ++ l2)]> (byUsername db);
                      byShortId := byShortId db |})).
Proof.
  intros u Hdb Hu Hurl Hp Hl Hfirst. unfold delete_photo. fold u.
  apply truthy_true in Hu, Hurl. rewrite Hu. simpl. rewrite Hurl, Hdb. simpl.
  apply get_Own in Hp. rewrite Hp, Hl.
  rewrite (indexOf_first l1 l2 url Hfirst).
  rewrite decide_False by lia. rewrite Nat2Z.id, splice_one. done.
Qed.

Lemma indexOf_elem l x : indexOf l x ≠ -1 → x ∈ l.
Proof.
  intros Hne. destruct (decide (x ∈ l)) as [|Hnotin]; [done|].
  by rewrite (indexOf_notin l x Hnotin) in Hne.
Qed.

Lemma delete_photo_inv f name photoUrl res f' :
  delete_photo f name photoUrl = Done (res, f') →
  f' = f
  ∨ ∃ url db p l l',
      photoUrl = Some url ∧ url ∈ l
      ∧ loadDb f = Done db
      ∧ byUsername db !! toLowerCase (trim name) = Some p
      ∧ photos p = Some l
      ∧ (∃ i, l' = splice l i 1)
      ∧ f' = unlinkSync (unlink_path url)
               (Saved {| byUsername :=
                           <[toLowerCase (trim name) := with_photos p l']> (byUsername db);
                         byShortId := byShortId db |}).
Proof.
  unfold delete_photo. set (u := toLowerCase (trim name)).
  destruct (truthy u); simpl; [|intros [= _ <-]; by left].
  destruct (or_null photoUrl) as [url|] eqn:Hurl; [|intros [= _ <-]; by left].
  assert (photoUrl = Some url) as ->.
  { destruct photoUrl as [[|c t]|]; simpl in Hurl; congruence. }
  destruct (loadDb_total f) as [db Hdb]. rewrite Hdb. simpl.
  destruct (get (byUsername db) u) as [p| |] eqn:Hget;
    [|intros [= _ <-]; by left..].
  apply get_Own in Hget.
  destruct (photos p) as [l|] eqn:Hl; [|intros [= _ <-]; by left].
  case_decide as Hidx; [intros [= _ <-]; by left|].
  apply indexOf_elem in Hidx.
  intros [= _ <-]. right. eexists url, db, p, l, _. split_and!; eauto.
Qed.

(** C6: when the photo sequence of the user does not contain the requested
    path, the delete request is answered with status 404 and the body
    [{ok: false, error: "Photo not found in user data"}], and the backing
    file, hence the photo sequence and the whole store, is left as it
    was. *)
Theorem delete_photo_not_found f db name url rnd u p l :
  loadDb f = Done db →
  toLowerCase (trim name) = u → u ≠ "" → url ≠ "" →
  byUsername db !! u = Some p → photos p = Some l →
  url ∉ l →
  serve f (POST_delete_photo name (Some url)) rnd
  = Some ({| status := 404; body := JsonFail "Photo not found in user data" |}, f).
Proof.
  intros Hdb <- Hu Hurl Hp Hl Hnotin. simpl.
  by rewrite (delete_photo_missing f db name url p l).
Qed.

(** C5, as amended: when the photo sequence of the user contains the
    requested path exactly once, and the file that the handler goes on to
    unlink (the path, without its leading slash, below [ROOT_DIR]) is not
    the backing file [data/users.json], the delete request removes that
    entry and nothing else: the profile is stored with its username, its
    blessing and its short id as they were and with the entries before the
    path followed by the entries after it, in their order, and the rest of
    the store is unchanged. *)
Theorem delete_photo_once f db name url rnd u p l :
  loadDb f = Done db →
  toLowerCase (trim name) = u → u ≠ "" → url ≠ "" →
  byUsername db !! u = Some p → photos p = Some l →
  occurrences url l = 1%nat →
  path_join ROOT_DIR (if startsWith url "/" then substring 1 url else url)
  ≠ path_join (path_join ROOT_DIR "data") "users.json" →
  ∃ l1 l2,
    l = l1 ++ url :: l2 ∧ (url ∉ l1) ∧ (url ∉ l2)
    ∧ serve f (POST_delete_photo name (Some url)) rnd
      = Some ({| status := 200; body := JsonDeleted "Photo deleted successfully" |},
              Saved {| byUsername :=
                         <[u := {| username := username p; blessing := blessing p;
                                   photos := Some (l1 ++ l2);
                                   shortId := shortId p |}]> (byUsername db);
                       byShortId := byShortId db |}).
Proof.
  intros Hdb <- Hu Hurl Hp Hl Hone Hfile.
  assert (Hin : url ∈ l) by (apply occurrences_pos; lia).
  apply list_elem_of_split_l in Hin as (l1 & l2 & -> & Hfirst).
  exists l1, l2. split_and!; [done|done| |].
  - rewrite occurrences_app, occurrences_cons_eq in Hone.
    apply occurrences_zero. lia.
  - simpl. rewrite (delete_photo_first f db name url p l1 l2) by done.
    by rewrite unlinkSync_other.
Qed.

(** C10, as amended: when the photo sequence of the user contains the
    requested path more than once, and the file that the handler goes on to
    unlink (the path, without its leading slash, below [ROOT_DIR]) is not
    the backing file [data/users.json], the delete request removes the
    first occurrence only: the profile is stored with its username, its
    blessing and its short id as they were and with the entries before the
    first occurrence (none of them the path) followed by all entries after
    it (the later occurrences among them), in their order, and the rest of
    the store is unchanged. *)
Theorem delete_photo_first_of_many f db name url rnd u p l :
  loadDb f = Done db →
  toLowerCase (trim name) = u → u ≠ "" → url ≠ "" →
  byUsername db !! u = Some p → photos p = Some l →
  (1 < occurrences url l)%nat →
  path_join ROOT_DIR (if startsWith url "/" then substring 1 url else url)
  ≠ path_join (path_join ROOT_DIR "data") "users.json" →
  ∃ l1 l2,
    l = l1 ++ url :: l2 ∧ (url ∉ l1) ∧ (url ∈ l2)
    ∧ occurrences url (l1 ++ l2) = (occurrences url l - 1)%nat
    ∧ serve f (POST_delete_photo name (Some url)) rnd
      = Some ({| status := 200; body := JsonDeleted "Photo deleted successfully" |},
              Saved {| byUsername :=
                         <[u := {| username := username p; blessing := blessing p;
                                   photos := Some (l1 ++ l2);
                                   shortId := shortId p |}]> (byUsername db);
                       byShortId := byShortId db |}).
Proof.
  intros Hdb <- Hu Hurl Hp Hl Hmany Hfile.
  assert (Hin : url ∈ l) by (apply occurrences_pos; lia).
  apply list_elem_of_split_l in Hin as (l1 & l2 & -> & Hfirst).
  exists l1, l2.
  assert (Hcount : occurrences url (l1 ++ url :: l2)
                   = S (occurrences url (l1 ++ l2))).
  { rewrite !occurrences_app, occurrences_cons_eq. lia. }
  rewrite Hcount in Hmany |- *.
  split_and!; [done|done| |lia|].
  - apply occurrences_pos. rewrite occurrences_app in Hmany.
    apply occurrences_zero in Hfirst. lia.
  - simpl. rewrite (delete_photo_first f db name url p l1 l2) by done.
    by rewrite unlinkSync_other.
Qed.

(** *** What every request preserves *)

Lemma serve_preserves f req rnd res f' db :
  serve f req rnd = Some (res, f') →
  loadDb f = Done db → bidirectional db → owners_named db →
  ∃ db', loadDb f' = Done db' ∧ bidirectional db' ∧ owners_named db'.
Proof.
  intros Hrun Hdb Hbi Hown.
  assert (Hsame : f' = f → ∃ db', loadDb f' = Done db' ∧ bidirectional db'
                                   ∧ owners_named db') by (intros ->; eauto).
  destruct req as [name|name b upload|name photoUrl|sid]; simpl in Hrun.
  - apply Hsame. destruct (get_user f name); by simplify_eq.
  - destruct (upload_array "photos" 20 upload) as [files|e]; [|apply Hsame; by simplify_eq].
    destruct (post_config f name b files rnd) as [[[res0 f0]|e]|] eqn:Hpost;
      [|apply Hsame; by simplify_eq|discriminate].
    simplify_eq.
    apply post_config_inv in Hpost
      as [(_ & -> & _)|(Hu & db0 & sid & Hdb0 & Hsid & _ & ->)]; [by apply Hsame|].
    assert (db0 = db) as -> by congruence.
    eexists. split; [reflexivity|]. split.
    + apply saved_store_bidirectional; [done|].
      apply (assigned_id_cases db _ rnd); [done| |done].
      intros v q s _ _ Hempty. by apply Hown in Hempty.
    + by apply saved_store_owners.
  - destruct (delete_photo f name photoUrl) as [[res0 f0]|e] eqn:Hdel;
      [|apply Hsame; by simplify_eq].
    simplify_eq.
    apply delete_photo_inv in Hdel
      as [->|(url & db0 & p & l & l' & _ & _ & Hdb0 & Hp & Hl & _ & ->)];
      [by apply Hsame|].
    assert (db0 = db) as -> by congruence.
    destruct (unlinkSync_cases (unlink_path url)
                (Saved {| byUsername :=
                            <[toLowerCase (trim name) := with_photos p l']> (byUsername db);
                          byShortId := byShortId db |})) as [[_ ->]|[_ ->]].
    { exists emptyStore. split; [done|]. apply bidirectional_empty. }
    eexists. split; [reflexivity|]. split; [|done].
    intros v q s Hq Hs. simpl in Hq |- *.
    destruct (decide (toLowerCase (trim name) = v)) as [<-|Hne].
    + rewrite lookup_insert_eq in Hq. injection Hq as <-. by eapply Hbi.
    + rewrite lookup_insert_ne in Hq by done. by eapply Hbi.
  - apply Hsame. destruct (resolve_short f sid); by simplify_eq.
Qed.

Lemma reachable_consistent f :
  reachable f →
  ∃ db, loadDb f = Done db ∧ bidirectional db ∧ owners_named db.
Proof.
  induction 1 as [f Hfresh|f req rnd res f' _ (db & Hdb & Hbi & Hown) Hrun].
  - exists emptyStore. split; [done|]. apply bidirectional_empty.
  - by eapply serve_preserves.
Qed.

(** C1: in every state of the store that the API can bring about, no two
    profiles hold the same non-empty short id, and an id that the
    generation loop produces on that store is not a key of [byShortId]; in
    particular the id that a successful update assigns to a profile without
    one is not a key of [byShortId] when it is assigned. *)
Theorem shortIds_unique f db :
  reachable f → loadDb f = Done db →
  unique_shortIds db
  ∧ (∀ rnd sid, generate_loop (byShortId db) rnd = Some sid →
                byShortId db !! sid = None)
  ∧ (∀ name b upload rnd res f' un bl ph sid url,
       or_null (prop_shortId (get (byUsername db) (toLowerCase (trim name)))) = None →
       serve f (POST_config name b upload) rnd = Some (res, f') →
       res = {| status := 200; body := JsonSaved un bl ph sid url |} →
       byShortId db !! sid = None).
Proof.
  intros (db0 & Hdb0 & Hbi & Hown)%reachable_consistent Hdb.
  assert (db0 = db) as -> by congruence.
  assert (Hloop : ∀ rnd sid, generate_loop (byShortId db) rnd = Some sid →
                             byShortId db !! sid = None).
  { intros rnd sid [Hempty|[Hnone _]]%generate_loop_free%taken_false; [|done].
    by apply Hown in Hempty. }
  split_and!; [by apply bidirectional_unique|done|].
  intros name b upload rnd res f' un bl ph sid url Hnone Hrun ->.
  apply serve_update_inv in Hrun as (_ & db0 & sid0 & Hdb0' & Hsid & Hres & _); [|done].
  assert (db0 = db) as -> by congruence.
  rewrite Hnone in Hsid. injection Hres as _ _ _ <- _. by eapply Hloop.
Qed.

(** An update under a username that is not empty is answered once
    [Math.random()] delivers an id that is free. *)
Lemma update_answered f db name b upload files rnd1 r rnd2 :
  loadDb f = Done db →
  toLowerCase (trim name) ≠ "" →
  upload_array "photos" 20 upload = Done files →
  Forall (λ r', taken (byShortId db) (generateShortId r') = true) rnd1 →
  taken (byShortId db) (generateShortId r) = false →
  ∃ res f',
    serve f (POST_config name b upload) (rnd1 ++ r :: rnd2) = Some (res, f')
    ∧ status res = 200%nat.
Proof.
  intros Hdb Hu%truthy_true Hup Hbusy Hfree. simpl. rewrite Hup.
  unfold post_config. rewrite Hu. simpl. rewrite Hdb.
  destruct (or_null (prop_shortId (get (byUsername db) (toLowerCase (trim name)))));
    [by eexists _, _|].
  rewrite (generate_loop_returns _ rnd1 r rnd2 Hbusy Hfree). by eexists _, _.
Qed.

(** *** The profiles that the API stores *)

Lemma urlPath_nonempty name file : urlPath name file ≠ "".
Proof. unfold urlPath. discriminate. Qed.

Lemma splice_Forall {A} (P : A → Prop) l i n : Forall P l → Forall P (splice l i n).
Proof.
  intros Hl. unfold splice. apply Forall_app. split.
  - by apply Forall_take.
  - by apply Forall_drop.
Qed.

Lemma serve_wellformed f req rnd res f' db :
  serve f req rnd = Some (res, f') →
  loadDb f = Done db → profiles_wellformed db →
  ∃ db', loadDb f' = Done db' ∧ profiles_wellformed db'.
Proof.
  intros Hrun Hdb Hwf.
  assert (Hsame : f' = f → ∃ db', loadDb f' = Done db' ∧ profiles_wellformed db')
    by (intros ->; eauto).
  destruct req as [name|name b upload|name photoUrl|sid]; simpl in Hrun.
  - apply Hsame. destruct (get_user f name); by simplify_eq.
  - destruct (upload_array "photos" 20 upload) as [files|e]; [|apply Hsame; by simplify_eq].
    destruct (post_config f name b files rnd) as [[[res0 f0]|e]|] eqn:Hpost;
      [|apply Hsame; by simplify_eq|discriminate].
    simplify_eq.
    apply post_config_inv in Hpost
      as [(_ & -> & _)|(Hu & db0 & sid & Hdb0 & Hsid & _ & ->)]; [by apply Hsame|].
    assert (db0 = db) as -> by congruence.
    eexists. split; [reflexivity|].
    intros v q Hq. simpl in Hq.
    apply set_lookup_cases in Hq as [[-> ->]|[_ Hq]]; [|by apply Hwf].
    simpl. split_and!; [done|done|eauto|].
    eexists. split; [reflexivity|]. apply Forall_app. split.
    + unfold prior_photos.
      destruct (byUsername db !! toLowerCase (trim name)) as [p|] eqn:Hp; [|done].
      destruct (Hwf _ _ Hp) as (_ & _ & _ & l & -> & Hl). done.
    + destruct files as [fs|]; [|done].
      apply Forall_fmap, Forall_forall. intros file _. apply urlPath_nonempty.
  - destruct (delete_photo f name photoUrl) as [[res0 f0]|e] eqn:Hdel;
      [|apply Hsame; by simplify_eq].
    simplify_eq.
    apply delete_photo_inv in Hdel
      as [->|(url & db0 & p & l & l' & _ & _ & Hdb0 & Hp & Hl & [i ->] & ->)];
      [by apply Hsame|].
    assert (db0 = db) as -> by congruence.
    destruct (unlinkSync_cases (unlink_path url)
                (Saved {| byUsername :=
                            <[toLowerCase (trim name) :=
                                with_photos p (splice l i 1)]> (byUsername db);
                          byShortId := byShortId db |})) as [[_ ->]|[_ ->]].
    { exists emptyStore. split; [done|].
      intros v q Hq. simpl in Hq. by rewrite lookup_empty in Hq. }
    eexists. split; [reflexivity|].
    intros v q Hq. simpl in Hq.
    destruct (decide (toLowerCase (trim name) = v)) as [<-|Hne].
    + rewrite lookup_insert_eq in Hq. injection Hq as <-.
      destruct (Hwf _ _ Hp) as (Hu & Hname & Hs & l0 & Hl0 & Hall).
      simpl. split_and!; [done|done|done|].
      eexists. split; [reflexivity|]. apply splice_Forall. congruence.
    + rewrite lookup_insert_ne in Hq by done. by apply Hwf.
  - apply Hsame. destruct (resolve_short f sid); by simplify_eq.
Qed.

(** In every state the API can bring about, the side conditions of the
    delete request hold of whatever is stored: usernames and photo paths
    are not empty. *)
Lemma reachable_wellformed f :
  reachable f → ∃ db, loadDb f = Done db ∧ profiles_wellformed db.
Proof.
  induction 1 as [f Hfresh|f req rnd res f' _ (db & Hdb & Hwf) Hrun].
  - exists emptyStore. split; [done|].
    intros u p Hp. simpl in Hp. by rewrite lookup_empty in Hp.
  - by eapply serve_wellformed.
Qed.

End Properties.

(** ** The endpoints on the sample data *)

Section Runs.
Import Sample.
Local Existing Instance Posix.platform.

(** The scenario of the first upload: the username is trimmed and put in
    lower case, the photo is stored under its web path, and the id is the
    first six radix-36 digits of the random number. *)
Example first_upload :
  serve NoFile (POST_config "Alice " "hello" (Multipart [picture])) [typical]
  = Some ({| status := 200;
             body := JsonSaved "alice" "hello"
                       ["/uploads/photos/alice/1735000000000-42.png"]
                       "4fzyo8" "/u/4fzyo8" |},
          Saved alice_store).
Proof. reflexivity. Qed.

Example short_link :
  serve (Saved alice_store) (GET_u "4fzyo8") []
  = Some ({| status := 302; body := Redirect "/tree.html?user=alice" |},
          Saved alice_store).
Proof. reflexivity. Qed.

Example unknown_user :
  serve NoFile (GET_user "nobody") []
  = Some ({| status := 404; body := JsonError "User not found" |}, NoFile).
Proof. reflexivity. Qed.

(** Under the name ["__proto__"] the update answers with the profile but
    stores none: the assignment to [db.byUsername] replaces the prototype of
    the object, and only the short id is registered. *)
Example proto_update :
  serve NoFile (POST_config "__proto__" "hello" (Multipart [picture])) [typical]
  = Some ({| status := 200;
             body := JsonSaved "__proto__" "hello"
                       ["/uploads/photos/__proto__/1735000000000-42.png"]
                       "4fzyo8" "/u/4fzyo8" |},
          Saved {| byUsername := ∅; byShortId := {[ "4fzyo8" := "__proto__" ]} |}).
Proof. reflexivity. Qed.

(** A file whose name has no extension is stored as a [.jpg]. *)
Example stored_without_extension :
  urlPath "Alice "
    {| fieldname := "photos"; originalname := "snowman";
       mimetype := Some "image/png"; now := 1735000000900; rounded := 5 |}
  = "/uploads/photos/alice/1735000000900-5.jpg".
Proof. reflexivity. Qed.

(** The web path of an upload leads the delete handler back to the stored
    file; the path of the store below [ROOT_DIR] leads it to the backing
    file. *)
Example unlink_of_upload :
  unlink_path (urlPath "Alice " picture) = file_path "Alice " picture.
Proof. reflexivity. Qed.

Example unlink_of_store : unlink_path "/data/users.json" = DB_FILE.
Proof. reflexivity. Qed.

(** Zero prints as ["0"], which leaves no digit for the id. *)
Example zero_id :
  generateShortId {| frac := []; frac_digits := eq_refl |} = "".
Proof. reflexivity. Qed.

(** An id that is taken is drawn again. *)
Example collision_retried :
  generate_loop (byShortId alice_store) [typical; typical; half] = Some "i".
Proof. reflexivity. Qed.

Lemma alice_reachable : reachable (Saved alice_store).
Proof.
  apply (reachable_step NoFile
           (POST_config "Alice " "hello" (Multipart [picture])) [typical]
           {| status := 200;
              body := JsonSaved "alice" "hello"
                        ["/uploads/photos/alice/1735000000000-42.png"]
                        "4fzyo8" "/u/4fzyo8" |}).
  - apply reachable_fresh. reflexivity.
  - reflexivity.
Defined.

Lemma shortIds_unique_witness :
  unique_shortIds alice_store
  ∧ (∀ rnd sid, generate_loop (byShortId alice_store) rnd = Some sid →
                byShortId alice_store !! sid = None)
  ∧ (∀ name b upload rnd res f' un bl ph sid url,
       or_null (prop_shortId (get (byUsername alice_store) (toLowerCase (trim name))))
       = None →
       serve (Saved alice_store) (POST_config name b upload) rnd = Some (res, f') →
       res = {| status := 200; body := JsonSaved un bl ph sid url |} →
       byShortId alice_store !! sid = None).
Proof.
  apply (shortIds_unique (Saved alice_store) alice_store).
  - exact alice_reachable.
  - reflexivity.
Defined.

Lemma non_image_upload_rejected_witness :
  serve NoFile (POST_config "alice" "hello" (Multipart [picture; letter])) [typical]
  = Some ({| status := 400; body := JsonError "Only image uploads are allowed" |},
          NoFile).
Proof.
  apply (non_image_upload_rejected NoFile "alice" "hello" [picture; letter]
           [typical] letter).
  - right. left.
  - intros m [= <-]. reflexivity.
Defined.

Lemma update_appends_photos_witness :
  (∃ b' sid,
     JsonSaved "alice" "again"
       ["/uploads/photos/alice/1735000000000-42.png";
        "/uploads/photos/alice/1735000000500-977.jpeg"] "4fzyo8" "/u/4fzyo8"
     = JsonSaved "alice" b'
         ["/uploads/photos/alice/1735000000000-42.png";
          "/uploads/photos/alice/1735000000500-977.jpeg"] sid ("/u/" +:+ sid))
  ∧ (∃ db',
       loadDb (Saved (saved_store alice_store "alice" "again"
                        ["/uploads/photos/alice/1735000000000-42.png";
                         "/uploads/photos/alice/1735000000500-977.jpeg"] "4fzyo8"))
       = Done db'
       ∧ (∀ p', byUsername db' !! "alice" = Some p' →
                photos p' = Some ["/uploads/photos/alice/1735000000000-42.png";
                                  "/uploads/photos/alice/1735000000500-977.jpeg"])
       ∧ ("alice" ≠ "__proto__" ∨ is_Some (byUsername alice_store !! "alice") →
          is_Some (byUsername db' !! "alice")))
  ∧ (∀ x c, x ∈ ["/uploads/photos/alice/1735000000500-977.jpeg"] →
            c ∈ list_ascii_of_string x → c = "/"%char → c = "/"%char).
Proof.
  refine (update_appends_photos (Saved alice_store) alice_store "alice" "again"
           (Multipart [candle]) []
           {| status := 200;
              body := JsonSaved "alice" "again"
                        ["/uploads/photos/alice/1735000000000-42.png";
                         "/uploads/photos/alice/1735000000500-977.jpeg"]
                        "4fzyo8" "/u/4fzyo8" |}
           (Saved (saved_store alice_store "alice" "again"
                     ["/uploads/photos/alice/1735000000000-42.png";
                      "/uploads/photos/alice/1735000000500-977.jpeg"] "4fzyo8"))
           _ _ _).
  - reflexivity.
  - reflexivity.
  - reflexivity.
Defined.

Lemma delete_photo_once_witness :
  ∃ l1 l2,
    ["/uploads/photos/carol/a.png"; "/uploads/photos/carol/b.png";
     "/uploads/photos/carol/a.png"] = l1 ++ "/uploads/photos/carol/b.png" :: l2
    ∧ ("/uploads/photos/carol/b.png" ∉ l1) ∧ ("/uploads/photos/carol/b.png" ∉ l2)
    ∧ serve (Saved carol_store)
        (POST_delete_photo "Carol" (Some "/uploads/photos/carol/b.png")) []
      = Some ({| status := 200; body := JsonDeleted "Photo deleted successfully" |},
              Saved {| byUsername :=
                         <["carol" := {| username := "carol";
                                         blessing := "merry christmas";
                                         photos := Some (l1 ++ l2);
                                         shortId := Some "k3x9qz" |}]>
                           (byUsername carol_store);
                       byShortId := byShortId carol_store |}).
Proof.
  apply (delete_photo_once (Saved carol_store) carol_store "Carol"
           "/uploads/photos/carol/b.png" [] "carol" carol).
  - reflexivity.
  - reflexivity.
  - discriminate.
  - discriminate.
  - reflexivity.
  - reflexivity.
  - reflexivity.
  - discriminate.
Defined.

(** C5, as stated, fails on a store in which an album lists the backing
    file of the store: the path is there exactly once, the request is
    answered with status 200, and the handler, having saved the store
    without the entry, unlinks the file it has just written.  No store is
    left: the next request finds no profile at all. *)
Lemma delete_photo_unlinks_store :
  occurrences "/data/users.json"
    ["/uploads/photos/eve/a.png"; "/data/users.json"] = 1%nat
  ∧ serve (Saved eve_store) (POST_delete_photo "Eve" (Some "/data/users.json")) []
    = Some ({| status := 200; body := JsonDeleted "Photo deleted successfully" |},
            NoFile)
  ∧ loadDb NoFile = Done emptyStore
  ∧ serve NoFile (GET_user "Eve") []
    = Some ({| status := 404; body := JsonError "User not found" |}, NoFile)
  ∧ ¬ ∃ l1 l2,
        serve (Saved eve_store) (POST_delete_photo "Eve" (Some "/data/users.json")) []
        = Some ({| status := 200; body := JsonDeleted "Photo deleted successfully" |},
                Saved {| byUsername :=
                           <["eve" := {| username := "eve"; blessing := "peace";
                                         photos := Some (l1 ++ l2);
                                         shortId := Some "e5v7e9" |}]>
                             (byUsername eve_store);
                         byShortId := byShortId eve_store |}).
Proof.
  split_and!; try reflexivity.
  intros (l1 & l2 & Hrun). vm_compute in Hrun. discriminate.
Qed.

Lemma delete_photo_not_found_witness :
  serve (Saved carol_store)
    (POST_delete_photo "Carol" (Some "/uploads/photos/carol/c.png")) []
  = Some ({| status := 404; body := JsonFail "Photo not found in user data" |},
          Saved carol_store).
Proof.
  apply (delete_photo_not_found (Saved carol_store) carol_store "Carol"
           "/uploads/photos/carol/c.png" [] "carol" carol
           ["/uploads/photos/carol/a.png"; "/uploads/photos/carol/b.png";
            "/uploads/photos/carol/a.png"]).
  - reflexivity.
  - reflexivity.
  - discriminate.
  - discriminate.
  - reflexivity.
  - reflexivity.
  - apply occurrences_zero. reflexivity.
Defined.

Lemma delete_photo_first_of_many_witness :
  ∃ l1 l2,
    ["/uploads/photos/carol/a.png"; "/uploads/photos/carol/b.png";
     "/uploads/photos/carol/a.png"] = l1 ++ "/uploads/photos/carol/a.png" :: l2
    ∧ ("/uploads/photos/carol/a.png" ∉ l1) ∧ ("/uploads/photos/carol/a.png" ∈ l2)
    ∧ occurrences "/uploads/photos/carol/a.png" (l1 ++ l2) = 1%nat
    ∧ serve (Saved carol_store)
        (POST_delete_photo "Carol" (Some "/uploads/photos/carol/a.png")) []
      = Some ({| status := 200; body := JsonDeleted "Photo deleted successfully" |},
              Saved {| byUsername :=
                         <["carol" := {| username := "carol";
                                         blessing := "merry christmas";
                                         photos := Some (l1 ++ l2);
                                         shortId := Some "k3x9qz" |}]>
                           (byUsername carol_store);
                       byShortId := byShortId carol_store |}).
Proof.
  apply (delete_photo_first_of_many (Saved carol_store) carol_store "Carol"
           "/uploads/photos/carol/a.png" [] "carol" carol).
  - reflexivity.
  - reflexivity.
  - discriminate.
  - discriminate.
  - reflexivity.
  - reflexivity.
  - vm_compute. lia.
  - discriminate.
Defined.

(** C10, as stated, fails on a store in which an album lists the backing
    file of the store twice: the request is answered with status 200, and
    the handler, having saved the store without the first of the two
    entries, unlinks the file it has just written.  The second entry is not
    kept, nor is anything else: no store is left. *)
Lemma delete_photo_unlinks_store_twice :
  occurrences "/data/users.json"
    ["/data/users.json"; "/uploads/photos/mallory/a.png"; "/data/users.json"]
  = 2%nat
  ∧ serve (Saved mallory_store)
      (POST_delete_photo "Mallory" (Some "/data/users.json")) []
    = Some ({| status := 200; body := JsonDeleted "Photo deleted successfully" |},
            NoFile)
  ∧ loadDb NoFile = Done emptyStore
  ∧ serve NoFile (GET_user "Mallory") []
    = Some ({| status := 404; body := JsonError "User not found" |}, NoFile)
  ∧ ¬ ∃ l1 l2,
        serve (Saved mallory_store)
          (POST_delete_photo "Mallory" (Some "/data/users.json")) []
        = Some ({| status := 200; body := JsonDeleted "Photo deleted successfully" |},
                Saved {| byUsername :=
                           <["mallory" := {| username := "mallory"; blessing := "";
                                             photos := Some (l1 ++ l2);
                                             shortId := Some "m4l0ry" |}]>
                             (byUsername mallory_store);
                         byShortId := byShortId mallory_store |}).
Proof.
  split_and!; try reflexivity.
  intros (l1 & l2 & Hrun). vm_compute in Hrun. discriminate.
Qed.

Lemma update_keeps_shortId_witness :
  ∃ res f' db',
    serve (Saved carol_store) (POST_config "Carol" "joy" NotMultipart) []
    = Some (res, f')
    ∧ loadDb f' = Done db'
    ∧ (∃ p', byUsername db' !! "carol" = Some p' ∧ shortId p' = Some "k3x9qz")
    ∧ (∀ un bl ph sid url, body res = JsonSaved un bl ph sid url → sid = "k3x9qz")
    ∧ ("carol" ≠ "" → ∀ files, upload_array "photos" 20 NotMultipart = Done files →
       ∃ bl ph, res = {| status := 200;
                         body := JsonSaved "carol" bl ph "k3x9qz" "/u/k3x9qz" |}).
Proof.
  apply (update_keeps_shortId (Saved carol_store) carol_store "Carol" "joy"
           NotMultipart [] "carol" carol "k3x9qz").
  - reflexivity.
  - reflexivity.
  - reflexivity.
  - reflexivity.
  - discriminate.
Defined.

Lemma update_keeps_bidirectional_witness :
  ∃ db',
    loadDb (Saved (saved_store carol_store "dave" "peace" [] "4fzyo8")) = Done db'
    ∧ bidirectional db' ∧ byUsername db' !! "" = None.
Proof.
  apply (update_keeps_bidirectional (Saved carol_store) carol_store "Dave" "peace"
           NotMultipart [typical]
           {| status := 200;
              body := JsonSaved "dave" "peace" [] "4fzyo8" "/u/4fzyo8" |}
           (Saved (saved_store carol_store "dave" "peace" [] "4fzyo8"))).
  - reflexivity.
  - intros u p s Hp Hs. simpl in Hp.
    apply lookup_singleton_Some in Hp as [<- <-].
    injection Hs as <-. reflexivity.
  - reflexivity.
  - reflexivity.
  - reflexivity.
Defined.

(** C9, as stated, fails on a store in which a short id is registered for
    the empty username: the store is consistent, yet the generation loop
    takes the id for free (the registered owner [""] is falsy), and the
    update hands it to a second profile and rewrites the entry. *)
Lemma update_breaks_bidirectional :
  bidirectional nameless_store
  ∧ serve (Saved nameless_store) (POST_config "Bob" "" NotMultipart) [typical]
    = Some ({| status := 200;
               body := JsonSaved "bob" "" [] "4fzyo8" "/u/4fzyo8" |},
            Saved (saved_store nameless_store "bob" "" [] "4fzyo8"))
  ∧ ¬ bidirectional (saved_store nameless_store "bob" "" [] "4fzyo8").
Proof.
  split_and!.
  - intros u p s Hp Hs. simpl in Hp.
    apply lookup_singleton_Some in Hp as [<- <-].
    injection Hs as <-. reflexivity.
  - reflexivity.
  - intros Hbi. specialize (Hbi "" nameless "4fzyo8" eq_refl eq_refl).
    vm_compute in Hbi. discriminate.
Qed.

End Runs.

(** * Further properties of the program *)

(** ** The listing of a directory *)

Lemma Entry_nested_ind (P : Listing.Entry → Prop) :
  P Listing.IsFile →
  (∀ entries, Forall (λ fe, P fe.2) entries → P (Listing.IsDirectory entries)) →
  ∀ node, P node.
Proof.
  intros Hfile Hdir. fix IH 1. intros [|entries]; [exact Hfile|].
  apply Hdir. induction entries as [|[file child] rest IHrest]; constructor.
  - apply IH.
  - exact IHrest.
Qed.

Lemma Outcome_bind_Done {A B} (a : A) (k : A → Outcome B) : (Done a ≫= k) = k a.
Proof. reflexivity. Qed.

Lemma listFilesRecursively_nil path_join dirPath fileList :
  Listing.listFilesRecursively path_join dirPath (Listing.IsDirectory []) fileList
  = Done fileList.
Proof. reflexivity. Qed.

Lemma listFilesRecursively_cons_file path_join dirPath file rest fileList :
  Listing.listFilesRecursively path_join dirPath
    (Listing.IsDirectory ((file, Listing.IsFile) :: rest)) fileList
  = Listing.listFilesRecursively path_join dirPath (Listing.IsDirectory rest)
      (fileList ++ [path_join dirPath file]).
Proof. reflexivity. Qed.

Lemma listFilesRecursively_cons_dir path_join dirPath file sub rest fileList :
  Listing.listFilesRecursively path_join dirPath
    (Listing.IsDirectory ((file, Listing.IsDirectory sub) :: rest)) fileList
  = (Listing.listFilesRecursively path_join (path_join dirPath file)
       (Listing.IsDirectory sub) fileList
     ≫= Listing.listFilesRecursively path_join dirPath (Listing.IsDirectory rest)).
Proof. reflexivity. Qed.

Lemma branches_cons file child rest :
  Listing.branches (Listing.IsDirectory ((file, child) :: rest))
  = map (cons file) (Listing.branches child)
    ++ Listing.branches (Listing.IsDirectory rest).
Proof. reflexivity. Qed.

Lemma listFilesRecursively_directory path_join node :
  ∀ entries, node = Listing.IsDirectory entries →
  ∀ dirPath fileList,
    Listing.listFilesRecursively path_join dirPath node fileList
    = Done (fileList ++ map (foldl path_join dirPath) (Listing.branches node)).
Proof.
  induction node as [|entries IH] using Entry_nested_ind; [discriminate|].
  intros ? _. induction IH as [|[file child] rest Hchild _ IHrest]; intros dirPath fileList.
  - rewrite listFilesRecursively_nil. simpl. by rewrite app_nil_r.
  - rewrite branches_cons, map_app, map_map. destruct child as [|sub].
    + rewrite listFilesRecursively_cons_file, IHrest. simpl. by rewrite <- app_assoc.
    + rewrite listFilesRecursively_cons_dir. cbn [snd] in Hchild.
      rewrite (Hchild sub eq_refl), Outcome_bind_Done, IHrest. by rewrite app_assoc.
Qed.

(** X20: on a directory, [listFilesRecursively] succeeds and returns the
    array it was given, its entries in place, followed by one path for each
    file below the directory: the names on the way down joined onto
    [dirPath] one by one, in depth-first order of the directory entries.
    Directories themselves are not listed. *)
Theorem listFilesRecursively_lists_files path_join dirPath entries fileList :
  Listing.listFilesRecursively path_join dirPath (Listing.IsDirectory entries) fileList
  = Done (fileList
          ++ map (foldl path_join dirPath)
               (Listing.branches (Listing.IsDirectory entries))).
Proof. by eapply listFilesRecursively_directory. Qed.

Example listing_of_images :
  Listing.listFilesRecursively Fixture.join2 "./images" Fixture.images []
  = Done ["./images/star.png"; "./images/2023/december/tree.jpg"; "./images/bell.png"].
Proof. reflexivity. Qed.

(** ** The names of stored files *)

Lemma pretty_N_char_digit d c :
  c = "-"%char ∨ c = "."%char → pretty_N_char d ≠ c.
Proof. unfold pretty_N_char. intros [->| ->]; by repeat case_match. Qed.

Lemma pretty_N_go_free c x s :
  c = "-"%char ∨ c = "."%char →
  c ∉ list_ascii_of_string s → c ∉ list_ascii_of_string (pretty_N_go x s).
Proof.
  intros Hc. revert s. induction (N.lt_wf_0 x) as [x _ IH]. intros s Hs.
  destruct (decide (x = 0%N)) as [->|Hx]; [by rewrite pretty_N_go_0|].
  rewrite pretty_N_go_step by lia. apply IH.
  - apply N.div_lt; lia.
  - simpl. apply not_elem_of_cons. split; [|done].
    intros Heq. by apply (pretty_N_char_digit (x `mod` 10)%N c Hc).
Qed.

(** A number printed in decimal has no dash and no dot. *)
Lemma pretty_N_free c (x : N) :
  c = "-"%char ∨ c = "."%char → c ∉ list_ascii_of_string (pretty x).
Proof.
  intros Hc. unfold pretty, pretty_N. case_decide.
  - simpl. apply not_elem_of_cons. split; [|apply not_elem_of_nil].
    destruct Hc as [->| ->]; discriminate.
  - apply pretty_N_go_free; [done|]. simpl. apply not_elem_of_nil.
Qed.

Lemma extension_dotted ext :
  Storage.dotted ext = true → ∃ t, or_string (Some ext) ".jpg" = String "." t.
Proof.
  destruct ext as [|c t]; simpl; [eauto|].
  intros ->%Ascii.eqb_eq. eauto.
Qed.

(** X21: uploads stored at different clock readings, or with different
    random numbers, get different names (the extensions being what
    [path.extname] gives: empty, or led by a dot).  Two stored names can
    coincide only when [Date.now()] and the rounded random number are both
    the same. *)
Theorem filename_distinct path_extname now rounded originalname
    now' rounded' originalname' :
  Storage.dotted (path_extname originalname) = true →
  Storage.dotted (path_extname originalname') = true →
  now ≠ now' ∨ rounded ≠ rounded' →
  Storage.filename path_extname now rounded originalname
  ≠ Storage.filename path_extname now' rounded' originalname'.
Proof.
  intros [t Ht]%extension_dotted [t' Ht']%extension_dotted Hdiff.
  unfold Storage.filename.
  rewrite Ht, Ht', !string_app_assoc, !string_app_cons, !string_app_nil.
  intros Hname.
  apply string_cut_first in Hname as [Hnow Hrest];
    [|apply pretty_N_free; by left..].
  apply string_cut_first in Hrest as [Hrounded _];
    [|apply pretty_N_free; by right..].
  apply (inj pretty) in Hnow, Hrounded. destruct Hdiff; congruence.
Qed.

Lemma filename_distinct_witness :
  Storage.filename Fixture.extension 1735000000000 424242 "tree.png"
  ≠ Storage.filename Fixture.extension 1735000000000 424243 "tree.jpeg".
Proof.
  apply (filename_distinct Fixture.extension 1735000000000 424242 "tree.png"
           1735000000000 424243 "tree.jpeg").
  - reflexivity.
  - reflexivity.
  - right. discriminate.
Defined.

Example filename_sample :
  Storage.filename Fixture.extension 1735000000000 424242 "tree.png"
  = "1735000000000-424242.png"
  ∧ Storage.filename Fixture.extension 1735000000000 7 "README" = "1735000000000-7.jpg".
Proof. split; reflexivity. Qed.

(** ** The endpoints, one after the other *)

Lemma or_string_self s : or_string (Some s) "" = s.
Proof. by destruct s. Qed.

Lemma set_set_same {A} (o : gmap string A) k v : set (set o k v) k v = set o k v.
Proof.
  destruct (decide (k = "__proto__" ∧ o !! k = None)) as [Hproto|Hproto].
  - assert (set o k v = o) as -> by (unfold set; by rewrite decide_True).
    unfold set. by rewrite decide_True.
  - assert (set o k v = <[k := v]> o) as -> by (unfold set; by rewrite decide_False).
    unfold set. rewrite decide_False; [apply insert_insert_eq|].
    rewrite lookup_insert_eq. intros [_ [=]].
Qed.

Section Sequel.
Context `{Platform}.

Lemma get_user_own f db name p :
  loadDb f = Done db →
  byUsername db !! toLowerCase (trim name) = Some p →
  get_user f name
  = Done {| status := 200;
            body := JsonUser (toLowerCase (trim name)) (blessing p)
                      (default [] (photos p)) (or_null (shortId p)) |}.
Proof.
  intros Hdb Hp%get_Own. unfold get_user. rewrite Hdb, Outcome_bind_Done, Hp.
  cbv [prop_blessing prop_photos prop_shortId]. by rewrite or_string_self.
Qed.

Lemma resolve_short_own f db raw u :
  loadDb f = Done db →
  byShortId db !! trim raw = Some u → u ≠ "" →
  resolve_short f raw
  = Done {| status := 302;
            body := Redirect ("/tree.html?user=" +:+ encodeURIComponent u) |}.
Proof.
  intros Hdb Hu%get_Own Hne%truthy_true. unfold resolve_short.
  rewrite Hdb, Outcome_bind_Done, Hu, Hne. done.
Qed.

(** The two ways an update is answered. *)
Lemma serve_update_cases f name b upload rnd res f' :
  serve f (POST_config name b upload) rnd = Some (res, f') →
  (f' = f ∧ status res = 400%nat
   ∧ ((∃ e, upload_array "photos" 20 upload = Raise e)
      ∨ toLowerCase (trim name) = ""))
  ∨ (status res = 200%nat
     ∧ (∃ files, upload_array "photos" 20 upload = Done files)
     ∧ toLowerCase (trim name) ≠ "").
Proof.
  intros Hrun. simpl in Hrun.
  destruct (upload_array "photos" 20 upload) as [files|e] eqn:Hup.
  - destruct (post_config f name b files rnd) as [[[res0 f0]|e]|] eqn:Hpost;
      [|by apply post_config_never_raises in Hpost|discriminate].
    simplify_eq.
    apply post_config_inv in Hpost
      as [(Hu & -> & ->)|(Hu & db & sid & _ & _ & -> & _)].
    + left. auto.
    + right. eauto.
  - simplify_eq. left. apply upload_array_raises in Hup as Herr.
    rewrite (upload_error_response e Herr). eauto.
Qed.

(** X1: a profile can be read back as it was saved.  After a successful
    update, [GET /api/user] for the same username answers 200 with the
    blessing and the photo sequence of the update's response, and with its
    short id ([null] in place of an empty id).  The name ["__proto__"] is
    excepted: see [proto_update_lost]. *)
Theorem get_after_update f name b upload rnd un bl ph sid url f' name' rnd' :
  serve f (POST_config name b upload) rnd
  = Some ({| status := 200; body := JsonSaved un bl ph sid url |}, f') →
  toLowerCase (trim name') = un →
  un ≠ "__proto__" →
  serve f' (GET_user name') rnd'
  = Some ({| status := 200;
             body := JsonUser un bl ph (if truthy sid then Some sid else None) |},
          f').
Proof.
  intros Hrun Hname Hproto.
  apply serve_update_inv in Hrun as (_ & db & sid0 & _ & _ & Hres & ->); [|done].
  injection Hres as -> -> -> -> _.
  set (db' := saved_store _ _ _ _ _).
  assert (Hp : byUsername db' !! toLowerCase (trim name')
               = Some {| username := toLowerCase (trim name); blessing := trim b;
                         photos := Some (prior_photos db (toLowerCase (trim name))
                                         ++ map (urlPath name) (uploaded upload));
                         shortId := Some sid0 |}).
  { rewrite Hname. simpl. apply set_lookup_eq. by left. }
  simpl. rewrite (get_user_own (Saved db') db' name' _ eq_refl Hp), Hname. done.
Qed.

(** X2: the short link of an update leads to its user.  After a successful
    update, [GET /u/<shortId>] with the id of the response answers 302 with
    the location [/tree.html?user=] followed by the encoded username, and
    the [shortUrl] of the response is [/u/] followed by that id. *)
Theorem shortUrl_resolves f name b upload rnd un bl ph sid url f' raw rnd' :
  serve f (POST_config name b upload) rnd
  = Some ({| status := 200; body := JsonSaved un bl ph sid url |}, f') →
  trim raw = sid →
  sid ≠ "__proto__" →
  url = "/u/" +:+ sid
  ∧ serve f' (GET_u raw) rnd'
    = Some ({| status := 302;
               body := Redirect ("/tree.html?user=" +:+ encodeURIComponent un) |},
            f').
Proof.
  intros Hrun Hraw Hproto.
  apply serve_update_inv in Hrun as (Hu & db & sid0 & _ & _ & Hres & ->); [|done].
  injection Hres as -> -> -> -> ->. split; [done|].
  set (db' := saved_store _ _ _ _ _).
  assert (Hs : byShortId db' !! trim raw = Some (toLowerCase (trim name))).
  { rewrite Hraw. simpl. apply set_lookup_eq. by left. }
  simpl. by rewrite (resolve_short_own (Saved db') db' raw _ eq_refl Hs Hu).
Qed.

(** X3: saving the same profile again, without files, changes nothing.
    After a successful update that left the profile with a non-empty short
    id, the same request without file parts is answered as before and
    leaves the backing file as it is, whatever [Math.random()] delivers. *)
Theorem update_resubmitted f name b upload rnd un bl ph sid url f' upload' rnd' :
  serve f (POST_config name b upload) rnd
  = Some ({| status := 200; body := JsonSaved un bl ph sid url |}, f') →
  sid ≠ "" → un ≠ "__proto__" →
  uploaded upload' = [] →
  serve f' (POST_config name b upload') rnd'
  = Some ({| status := 200; body := JsonSaved un bl ph sid url |}, f').
Proof.
  intros Hrun Hsid Hproto Hnone.
  apply serve_update_inv in Hrun as (Hu & db & sid0 & _ & _ & Hres & ->); [|done].
  injection Hres as -> -> -> -> ->.
  set (u := toLowerCase (trim name)) in *.
  set (ph := prior_photos db u ++ map (urlPath name) (uploaded upload)).
  set (db' := saved_store db u (trim b) ph sid0).
  assert (Hstored : byUsername db' !! u
                    = Some {| username := u; blessing := trim b;
                              photos := Some ph; shortId := Some sid0 |}).
  { simpl. apply set_lookup_eq. by left. }
  assert (Hfiles : ∃ files, upload_array "photos" 20 upload' = Done files
                   ∧ match files with Some fs => map (urlPath name) fs | None => [] end = []).
  { destruct upload' as [|parts]; simpl in *; [eauto|]. subst parts. simpl. eauto. }
  destruct Hfiles as (files & Hup & Hempty).
  simpl. rewrite Hup.
  rewrite (post_config_existing (Saved db') db' name b files rnd' _ sid0 eq_refl Hu
             Hstored eq_refl Hsid).
  fold u. rewrite Hempty, app_nil_r.
  assert (Hprior : prior_photos db' u = ph).
  { unfold prior_photos. by rewrite Hstored. }
  rewrite Hprior. do 3 f_equal.
  unfold db', saved_store. simpl. by rewrite !set_set_same.
Qed.

(** X4: an update touches one profile and one short id.  Whatever the
    answer, the profiles under all other usernames are as before, and so is
    every entry of [byShortId] under an id other than the one the response
    reports. *)
Theorem update_changes_one_profile f db name b upload rnd res f' db' :
  loadDb f = Done db →
  serve f (POST_config name b upload) rnd = Some (res, f') →
  loadDb f' = Done db' →
  (∀ v, v ≠ toLowerCase (trim name) → byUsername db' !! v = byUsername db !! v)
  ∧ (∀ s, (∀ un bl ph url, body res ≠ JsonSaved un bl ph s url) →
          byShortId db' !! s = byShortId db !! s).
Proof.
  intros Hdb Hrun Hdb'.
  destruct (serve_update_cases _ _ _ _ _ _ _ Hrun) as [(-> & _)|(Hok & _)].
  { assert (db' = db) as -> by congruence. done. }
  apply serve_update_inv in Hrun as (_ & db0 & sid & Hdb0 & _ & -> & ->); [|done].
  assert (db0 = db) as -> by congruence.
  injection Hdb' as <-. simpl. split.
  - intros v Hv. by apply set_lookup_ne.
  - intros s Hs. apply set_lookup_ne. intros ->. by eapply Hs.
Qed.


(** X7: a profile saved under the name ["__proto__"] is lost.  On a store
    without an own profile of that name the update answers 200 with the
    profile, but the profiles of the store are as before, and a following
    [GET /api/user/__proto__] answers 200 with an empty profile. *)
Theorem proto_update_lost f db name b upload rnd res f' :
  loadDb f = Done db →
  toLowerCase (trim name) = "__proto__" →
  byUsername db !! "__proto__" = None →
  serve f (POST_config name b upload) rnd = Some (res, f') →
  ∃ db', loadDb f' = Done db'
    ∧ byUsername db' = byUsername db
    ∧ ∀ rnd', serve f' (GET_user name) rnd'
              = Some ({| status := 200; body := JsonUser "__proto__" "" [] None |}, f').
Proof.
  intros Hdb Hname Hnone Hrun.
  assert (Hget : ∀ f0 db0 rnd', loadDb f0 = Done db0 →
            byUsername db0 = byUsername db →
            serve f0 (GET_user name) rnd'
            = Some ({| status := 200; body := JsonUser "__proto__" "" [] None |}, f0)).
  { intros f0 db0 rnd' Hdb0 Hsame. simpl. unfold get_user.
    rewrite Hdb0, Outcome_bind_Done, Hname, Hsame. unfold get. rewrite Hnone. done. }
  destruct (serve_update_cases _ _ _ _ _ _ _ Hrun) as [(-> & _)|(Hok & _)].
  { exists db. eauto. }
  apply serve_update_inv in Hrun as (_ & db0 & sid & Hdb0 & _ & _ & ->); [|done].
  assert (db0 = db) as -> by congruence.
  eexists. split; [reflexivity|].
  assert (Hsame : byUsername (saved_store db (toLowerCase (trim name)) (trim b)
                      (prior_photos db (toLowerCase (trim name))
                       ++ map (urlPath name) (uploaded upload)) sid) = byUsername db).
  { simpl. rewrite Hname. unfold set. by rewrite decide_True. }
  split; [done|]. intros rnd'. by eapply Hget.
Qed.

(** *** Deleting a photo *)

Lemma pretty_N_go_avoid c x s :
  (∀ d, pretty_N_char d ≠ c) →
  c ∉ list_ascii_of_string s → c ∉ list_ascii_of_string (pretty_N_go x s).
Proof.
  intros Hc. revert s. induction (N.lt_wf_0 x) as [x _ IH]. intros s Hs.
  destruct (decide (x = 0%N)) as [->|Hx]; [by rewrite pretty_N_go_0|].
  rewrite pretty_N_go_step by lia. apply IH.
  - apply N.div_lt; lia.
  - simpl. apply not_elem_of_cons. split; [|done].
    intros Heq. by apply (Hc (x `mod` 10)%N).
Qed.

(** A number printed in decimal has no character that is not a digit. *)
Lemma pretty_N_avoid c (x : N) :
  (∀ d, pretty_N_char d ≠ c) → c ∉ list_ascii_of_string (pretty x).
Proof.
  intros Hc. unfold pretty, pretty_N. case_decide.
  - simpl. apply not_elem_of_cons. split; [|apply not_elem_of_nil].
    intros ->. by apply (Hc 0%N).
  - apply pretty_N_go_avoid; [done|]. simpl. apply not_elem_of_nil.
Qed.

Lemma pretty_N_char_separator c d :
  c = "/"%char ∨ c = "092"%char ∨ c = "-"%char → pretty_N_char d ≠ c.
Proof. unfold pretty_N_char. intros [->|[->| ->]]; by repeat case_match. Qed.

(** The name under which an upload is stored has a dash in it.  It is one
    segment of a path, and it is not the name of the backing file. *)
Lemma filename_dash now rounded originalname :
  "-"%char ∈ list_ascii_of_string
               (Storage.filename path_extname now rounded originalname).
Proof.
  unfold Storage.filename. rewrite !list_ascii_app, !elem_of_app.
  left. right. left. simpl. by apply list_elem_of_singleton.
Qed.

Lemma filename_plain now rounded originalname :
  plain path_sep (Storage.filename path_extname now rounded originalname).
Proof.
  pose proof (filename_dash now rounded originalname) as Hdash.
  split_and!.
  - intros Heq. rewrite Heq in Hdash. by apply elem_of_nil in Hdash.
  - intros Heq. rewrite Heq in Hdash. simpl in Hdash.
    by apply list_elem_of_singleton in Hdash.
  - intros Heq. rewrite Heq in Hdash. simpl in Hdash.
    apply elem_of_cons in Hdash as [|Hdash]; [done|].
    by apply list_elem_of_singleton in Hdash.
  - intros c. unfold Storage.filename. rewrite !list_ascii_app, !elem_of_app.
    assert (Hsep : c = "/"%char ∨ c = path_sep →
                   c = "/"%char ∨ c = "092"%char ∨ c = "-"%char).
    { destruct path_sep_cases as [->| ->]; tauto. }
    assert (Hdigits : ∀ x : N, c ∈ list_ascii_of_string (pretty x) →
                               c ≠ "/"%char ∧ c ≠ path_sep).
    { intros x Hx.
      assert (Hno : ¬ (c = "/"%char ∨ c = path_sep)); [|tauto].
      intros Hc%Hsep. revert Hx. apply pretty_N_avoid.
      intros d. by apply pretty_N_char_separator. }
    intros [[Hnow|[Hc|Hrounded]]|Hext]; [by eapply Hdigits| |by eapply Hdigits|].
    + simpl in Hc. apply list_elem_of_singleton in Hc as ->.
      split; [done|]. by destruct path_sep_cases as [->| ->].
    + unfold or_string in Hext.
      destruct (truthy (path_extname originalname));
        [by eapply path_extname_segment|].
      simpl in Hext. rewrite !elem_of_cons, elem_of_nil in Hext.
      destruct path_sep_cases as [Hs|Hs]; rewrite Hs;
        destruct Hext as [->|[->|[->|[->|[]]]]]; done.
Qed.

Lemma filename_not_backing now rounded originalname :
  Storage.filename path_extname now rounded originalname ≠ "users.json".
Proof.
  intros Heq. pose proof (filename_dash now rounded originalname) as Hdash.
  rewrite Heq in Hdash. simpl in Hdash.
  rewrite !elem_of_cons, elem_of_nil in Hdash.
  repeat (destruct Hdash as [Hdash|Hdash]; [discriminate|]). done.
Qed.

(** The web path under which an upload is stored never leads the delete
    handler to the backing file of the store. *)
Lemma urlPath_unlink_safe name file : unlink_path (urlPath name file) ≠ DB_FILE.
Proof.
  unfold urlPath. rewrite unlink_path_slash. intros Heq.
  apply path_join_relative in Heq; [|apply filename_plain].
  by apply filename_not_backing in Heq.
Qed.

Lemma delete_photo_never_raises f name photoUrl e :
  delete_photo f name photoUrl ≠ Raise e.
Proof.
  unfold delete_photo. destruct (truthy _); [|discriminate].
  destruct (or_null photoUrl); [|discriminate].
  destruct (loadDb_total f) as [db ->]. simpl.
  destruct (get _ _) as [p| |]; try discriminate.
  destruct (photos p); [|discriminate]. by case_decide.
Qed.

Lemma delete_photo_cases f name photoUrl res f' :
  delete_photo f name photoUrl = Done (res, f') →
  (f' = f ∧ status res ≠ 200%nat)
  ∨ (status res = 200%nat
     ∧ ∃ db url p l1 l2,
         loadDb f = Done db ∧ photoUrl = Some url
         ∧ byUsername db !! toLowerCase (trim name) = Some p
         ∧ photos p = Some (l1 ++ url :: l2) ∧ (url ∉ l1)
         ∧ f' = unlinkSync (unlink_path url)
                  (Saved {| byUsername :=
                              <[toLowerCase (trim name) := with_photos p (l1 ++ l2)]>
                                (byUsername db);
                            byShortId := byShortId db |})).
Proof.
  unfold delete_photo. set (u := toLowerCase (trim name)).
  destruct (truthy u); simpl; [|intros [= <- <-]; by left].
  destruct photoUrl as [url|]; simpl; [|intros [= <- <-]; by left].
  destruct (truthy url); [|intros [= <- <-]; by left].
  destruct (loadDb_total f) as [db Hdb]. rewrite Hdb. simpl.
  destruct (get (byUsername db) u) as [p| |] eqn:Hget;
    [|intros [= <- <-]; by left..].
  apply get_Own in Hget.
  destruct (photos p) as [l|] eqn:Hl; [|intros [= <- <-]; by left].
  case_decide as Hindex; [intros [= <- <-]; by left|].
  intros [= <- <-]. right. split; [done|].
  apply indexOf_elem, list_elem_of_split_l in Hindex as (l1 & l2 & -> & Hfirst).
  rewrite (indexOf_first l1 l2 url Hfirst), Nat2Z.id, splice_one.
  exists db, url, p, l1, l2. split_and!; done.
Qed.

(** X8: what a delete request does to the backing file.  A request that
    is not answered 200 leaves it as it was.  A request answered 200 took
    the first occurrence of the path out of the photo sequence of the user
    it names and saved the store, the user's other properties, all other
    profiles and [byShortId] being as before; it then unlinked the file
    that the path, without its leading slash, names below [ROOT_DIR].  When
    that file is [data/users.json] no backing file is left; otherwise the
    backing file holds the store as saved. *)
Theorem delete_photo_effect f name photoUrl rnd res f' :
  serve f (POST_delete_photo name photoUrl) rnd = Some (res, f') →
  (status res ≠ 200%nat → f' = f)
  ∧ (status res = 200%nat →
     ∃ db url p l1 l2,
       loadDb f = Done db ∧ photoUrl = Some url
       ∧ byUsername db !! toLowerCase (trim name) = Some p
       ∧ photos p = Some (l1 ++ url :: l2) ∧ (url ∉ l1)
       ∧ f' = if decide (path_join ROOT_DIR
                           (if startsWith url "/" then substring 1 url else url)
                         = path_join (path_join ROOT_DIR "data") "users.json")
              then NoFile
              else Saved {| byUsername :=
                              <[toLowerCase (trim name) :=
                                  {| username := username p; blessing := blessing p;
                                     photos := Some (l1 ++ l2);
                                     shortId := shortId p |}]>
                                (byUsername db);
                            byShortId := byShortId db |}).
Proof.
  intros Hrun. simpl in Hrun.
  destruct (delete_photo f name photoUrl) as [[res0 f0]|e] eqn:Hdel.
  - simplify_eq. apply delete_photo_cases in Hdel as [[-> Hne]|[Hok Hdone]].
    + split; [done|]. intros Hok. by destruct Hne.
    + split; [intros Hne; by destruct Hne|]. intros _. exact Hdone.
  - unfold delete_photo in Hdel. destruct (truthy _); [|discriminate].
    destruct (or_null photoUrl); [|discriminate].
    destruct (loadDb_total f) as [db Hdb]. rewrite Hdb in Hdel. simpl in Hdel.
    destruct (get _ _) as [p| |]; try discriminate.
    destruct (photos p); [|discriminate]. by case_decide.
Qed.

(** X9: a photo can be deleted once.  After the delete request for a path
    that the photo sequence held exactly once, and that does not lead the
    handler to unlink the backing file, the same request is answered 404
    with [{ok: false, error: "Photo not found in user data"}] and changes
    nothing.  (When the path leads to the backing file the first request
    leaves no store, and the second is answered 404 for want of the
    user.) *)
Theorem delete_photo_again f db name url rnd u p l res f' rnd' :
  loadDb f = Done db →
  toLowerCase (trim name) = u → u ≠ "" → url ≠ "" →
  byUsername db !! u = Some p → photos p = Some l →
  occurrences url l = 1%nat →
  path_join ROOT_DIR (if startsWith url "/" then substring 1 url else url)
  ≠ path_join (path_join ROOT_DIR "data") "users.json" →
  serve f (POST_delete_photo name (Some url)) rnd = Some (res, f') →
  serve f' (POST_delete_photo name (Some url)) rnd'
  = Some ({| status := 404; body := JsonFail "Photo not found in user data" |}, f').
Proof.
  intros Hdb <- Hu Hurl Hp Hl Hone Hfile Hrun.
  assert (Hin : url ∈ l) by (apply occurrences_pos; lia).
  apply list_elem_of_split_l in Hin as (l1 & l2 & -> & Hfirst).
  simpl in Hrun. rewrite (delete_photo_first f db name url p l1 l2) in Hrun by done.
  rewrite unlinkSync_other in Hrun by done.
  injection Hrun as <- <-.
  set (db' := {| byUsername := _; byShortId := _ |}). simpl.
  rewrite (delete_photo_missing (Saved db') db' name url
             (with_photos p (l1 ++ l2)) (l1 ++ l2)); try done.
  - simpl. apply lookup_insert_eq.
  - rewrite occurrences_app, occurrences_cons_eq in Hone.
    apply occurrences_zero. rewrite occurrences_app. apply occurrences_zero in Hfirst. lia.
Qed.

(** X10: deleting a photo that was just uploaded restores the photo
    sequence.  After a successful update with one file whose web path the
    profile did not hold, the delete request for that path is answered 200
    and leaves the profile with the photo sequence it had before the
    update. *)
Theorem upload_then_delete f db name b file rnd res f' rnd' :
  loadDb f = Done db →
  serve f (POST_config name b (Multipart [file])) rnd = Some (res, f') →
  status res = 200%nat →
  toLowerCase (trim name) ≠ "__proto__" →
  urlPath name file ∉ prior_photos db (toLowerCase (trim name)) →
  ∃ f'' db'' p'',
    serve f' (POST_delete_photo name (Some (urlPath name file))) rnd'
    = Some ({| status := 200; body := JsonDeleted "Photo deleted successfully" |}, f'')
    ∧ loadDb f'' = Done db''
    ∧ byUsername db'' !! toLowerCase (trim name) = Some p''
    ∧ photos p'' = Some (prior_photos db (toLowerCase (trim name))).
Proof.
  intros Hdb Hrun Hok Hproto Hnew.
  apply serve_update_inv in Hrun as (Hu & db0 & sid & Hdb0 & _ & _ & ->); [|done].
  assert (db0 = db) as -> by congruence.
  set (u := toLowerCase (trim name)) in *. simpl uploaded.
  set (db' := saved_store _ _ _ _ _).
  set (p' := {| username := u; blessing := trim b;
                photos := Some (prior_photos db u ++ map (urlPath name) [file]);
                shortId := Some sid |}).
  assert (Hp' : byUsername db' !! u = Some p').
  { simpl. apply set_lookup_eq. by left. }
  eexists _, _, _. split.
  - simpl. rewrite (delete_photo_first (Saved db') db' name (urlPath name file) p'
                      (prior_photos db u) [])
      by (try done; apply urlPath_nonempty).
    rewrite unlinkSync_other by apply urlPath_unlink_safe. reflexivity.
  - split; [reflexivity|]. simpl. split; [apply lookup_insert_eq|].
    simpl. by rewrite app_nil_r.
Qed.

(** *** Reading *)

(** X11: [GET /api/user] for a username without a stored profile answers
    404 with [{error: "User not found"}], unless the name is that of a
    member of [Object.prototype]: then it answers 200 with an empty
    profile. *)
Theorem get_user_unknown f db name rnd :
  loadDb f = Done db →
  byUsername db !! toLowerCase (trim name) = None →
  serve f (GET_user name) rnd
  = Some (if decide (toLowerCase (trim name) ∈ Object_prototype_keys)
          then {| status := 200;
                  body := JsonUser (toLowerCase (trim name)) "" [] None |}
          else {| status := 404; body := JsonError "User not found" |},
          f).
Proof.
  intros Hdb Hnone. simpl. unfold get_user, get.
  rewrite Hdb, Outcome_bind_Done, Hnone. by case_decide.
Qed.

(** X12: [GET /u/<shortId>] answers 404 with the text [Invalid link] when
    the id has no entry, or an entry naming the empty username, unless the
    id is the name of a member of [Object.prototype]: then it redirects to
    the page of a user named like the text of that member. *)
Theorem resolve_short_unknown f db raw rnd :
  loadDb f = Done db →
  byShortId db !! trim raw = None ∨ byShortId db !! trim raw = Some "" →
  serve f (GET_u raw) rnd
  = Some (if decide (byShortId db !! trim raw = None
                     ∧ trim raw ∈ Object_prototype_keys)
          then {| status := 302;
                  body := Redirect ("/tree.html?user="
                                    +:+ encodeURIComponent (member_text (trim raw))) |}
          else {| status := 404; body := Text "Invalid link" |},
          f).
Proof.
  intros Hdb Hentry. simpl. unfold resolve_short, get.
  rewrite Hdb, Outcome_bind_Done. destruct Hentry as [Hnone|Hempty].
  - rewrite Hnone. case_decide as Hkey.
    + by rewrite decide_True.
    + rewrite decide_False; [done|]. by intros [_ ?].
  - rewrite Hempty. rewrite decide_False; [done|]. by intros [[=] _].
Qed.

End Sequel.

(** ** The upload gate *)

Lemma multer_files_accepts name n parts :
  (length parts ≤ n)%nat →
  Forall (λ file, fieldname file = name ∧ is_image file = true) parts →
  multer_files name n parts = Done parts.
Proof.
  intros Hlen Hall. revert n Hlen.
  induction Hall as [|file rest [Hname Himg] _ IH]; intros n Hlen; [done|].
  simpl in Hlen |- *. destruct n as [|n]; [lia|].
  rewrite decide_True by done. unfold fileFilter. rewrite Himg.
  rewrite Outcome_bind_Done, IH by lia. done.
Qed.

Lemma multer_files_within name n parts files :
  multer_files name n parts = Done files →
  (length parts ≤ n)%nat ∧ Forall (λ file, fieldname file = name) parts.
Proof.
  revert n files. induction parts as [|file rest IH]; intros n files; simpl.
  { intros _. split; [lia|done]. }
  destruct n as [|n]; [discriminate|]. case_decide as Hname; [|discriminate].
  destruct (fileFilter file) as [include|]; simpl; [|discriminate].
  destruct (multer_files name n rest) as [accepted|] eqn:Hrest; simpl; [|discriminate].
  intros _. destruct (IH _ _ Hrest) as [Hlen Hall]. split; [lia|]. by constructor.
Qed.

(** X6: which uploads pass.  A multipart body passes [upload.array('photos',
    20)] exactly when it has at most 20 file parts, all under the field
    [photos] and all with a content type that begins with [image/]; its
    parts then reach the handler as they came.  Every other multipart body
    is answered 400 with [{error: "Only image uploads are allowed"}]. *)
Theorem upload_accepted_iff parts :
  (upload_array "photos" 20 (Multipart parts) = Done (Some parts)
   ↔ (length parts ≤ 20)%nat
     ∧ Forall (λ file, fieldname file = "photos" ∧ is_image file = true) parts)
  ∧ (∀ files, upload_array "photos" 20 (Multipart parts) = Done files →
              files = Some parts)
  ∧ (∀ e, upload_array "photos" 20 (Multipart parts) = Raise e →
          error_handler e
          = {| status := 400; body := JsonError "Only image uploads are allowed" |}).
Proof.
  assert (Hdone : ∀ files, upload_array "photos" 20 (Multipart parts) = Done files →
            multer_files "photos" 20 parts = Done parts ∧ files = Some parts).
  { intros files. simpl.
    destruct (multer_files "photos" 20 parts) as [fs|] eqn:Hfs; [|discriminate].
    intros [= <-]. by apply multer_files_done in Hfs as Hsame; destruct Hsame as [-> _]. }
  split_and!.
  - split.
    + intros [Hrun _]%Hdone.
      apply multer_files_within in Hrun as Hwithin. destruct Hwithin as [Hlen Hnames].
      apply multer_files_done in Hrun as [_ Himgs].
      split; [done|]. rewrite Forall_forall in Hnames, Himgs |- *. auto.
    + intros [Hlen Hall]. simpl. by rewrite multer_files_accepts.
  - intros files Hrun. by apply Hdone in Hrun as [_ ->].
  - intros e He. apply upload_array_raises in He. by apply upload_error_response.
Qed.

(** ** The short-id generator, again *)

(** X18: every id the generator returns has at most six characters, each
    of them a digit or a lowercase letter, whatever [Math.random()]
    delivers. *)
Theorem shortId_alphabet r :
  (String.length (generateShortId r) ≤ 6)%nat
  ∧ ∀ c, c ∈ list_ascii_of_string (generateShortId r) →
         c ∈ list_ascii_of_string "0123456789abcdefghijklmnopqrstuvwxyz".
Proof. apply generateShortId_chars. Qed.

(** X19: the generation loop returns the id of the first outcome of
    [Math.random()] whose id is not taken, having drawn again for every
    outcome before it; it returns nothing as long as every id drawn is
    taken. *)
Theorem generate_loop_first_free byShortId rnd sid :
  generate_loop byShortId rnd = Some sid
  ↔ ∃ rnd1 r rnd2,
      rnd = rnd1 ++ r :: rnd2
      ∧ Forall (λ r', taken byShortId (generateShortId r') = true) rnd1
      ∧ taken byShortId (generateShortId r) = false
      ∧ sid = generateShortId r.
Proof.
  split.
  - induction rnd as [|r rest IH]; simpl; [discriminate|].
    destruct (taken byShortId (generateShortId r)) eqn:Htaken.
    + intros (rnd1 & r0 & rnd2 & -> & Hbusy & Hfree & ->)%IH.
      exists (r :: rnd1), r0, rnd2. split_and!; try done. by constructor.
    + intros [= <-]. exists [], r, rest. split_and!; try done.
  - intros (rnd1 & r & rnd2 & -> & Hbusy & Hfree & ->).
    by apply generate_loop_returns.
Qed.

(** ** What holds in every state *)

Section Always.
Context `{Platform}.

(** X13: the profiles the API stores are complete.  In every state the API
    can bring about, each profile is stored under a username that is not
    empty and that it carries as its [username], it has a short id, and its
    photos are an array of non-empty paths. *)
Theorem reachable_profiles f db :
  reachable f → loadDb f = Done db → profiles_wellformed db.
Proof.
  intros (db0 & Hdb0 & Hwf)%reachable_wellformed Hdb.
  assert (db0 = db) as -> by congruence. done.
Qed.

(** X14: the two maps of the store agree in every state the API can bring
    about: the short id of each profile is a key of [byShortId], its entry
    is the profile's username, and no entry names the empty username. *)
Theorem reachable_bidirectional f db :
  reachable f → loadDb f = Done db → bidirectional db ∧ owners_named db.
Proof.
  intros (db0 & Hdb0 & Hbi & Hown)%reachable_consistent Hdb.
  assert (db0 = db) as -> by congruence. done.
Qed.

(** X15: every stored short id leads to its profile.  In every state the
    API can bring about, [GET /u/<shortId>] with the short id of a stored
    profile redirects to the page of that profile's username. *)
Theorem stored_shortId_resolves f db u p s raw rnd :
  reachable f → loadDb f = Done db →
  byUsername db !! u = Some p → shortId p = Some s →
  trim raw = s →
  serve f (GET_u raw) rnd
  = Some ({| status := 302;
             body := Redirect ("/tree.html?user=" +:+ encodeURIComponent u) |}, f).
Proof.
  intros (db0 & Hdb0 & Hbi & Hown)%reachable_consistent Hdb Hp Hs Hraw.
  assert (db0 = db) as -> by congruence.
  pose proof (Hbi _ _ _ Hp Hs) as Hentry. rewrite <- Hraw in Hentry.
  simpl. by rewrite (resolve_short_own f db raw u Hdb Hentry (Hown _ _ Hentry)).
Qed.

Lemma later_reachable f f' : reachable f → later f f' → reachable f'.
Proof.
  intros Hreach Hlater. induction Hlater as [|f f1 f2 (req & rnd & res & Hrun) _ IH];
    [done|].
  apply IH. by eapply reachable_step.
Qed.

(** The photo paths that the API stores are web paths of uploads, and none
    of them leads the delete handler to the backing file: in operation the
    handler unlinks uploads only. *)
Lemma serve_safe f req rnd res f' db :
  serve f req rnd = Some (res, f') →
  loadDb f = Done db → photos_safe db →
  ∃ db', loadDb f' = Done db' ∧ photos_safe db'.
Proof.
  intros Hrun Hdb Hsafe.
  assert (Hsame : f' = f → ∃ db', loadDb f' = Done db' ∧ photos_safe db')
    by (intros ->; eauto).
  assert (Hempty : photos_safe emptyStore).
  { intros v q l Hq. simpl in Hq. by rewrite lookup_empty in Hq. }
  destruct req as [name|name b upload|name photoUrl|sid].
  - apply Hsame. simpl in Hrun. destruct (get_user f name); by simplify_eq.
  - destruct (serve_update_cases _ _ _ _ _ _ _ Hrun) as [(-> & _)|(Hok & _)]; [eauto|].
    apply serve_update_inv in Hrun as (_ & db0 & sid & Hdb0 & _ & _ & ->); [|done].
    assert (db0 = db) as -> by congruence.
    eexists. split; [reflexivity|].
    intros v q l Hq Hl. simpl in Hq.
    apply set_lookup_cases in Hq as [[-> ->]|[_ Hq]]; [|by eapply Hsafe].
    simpl in Hl. injection Hl as <-. apply Forall_app. split.
    + unfold prior_photos.
      destruct (byUsername db !! toLowerCase (trim name)) as [p|] eqn:Hp; [|done].
      destruct (photos p) as [l|] eqn:Hl; [|done]. by eapply Hsafe.
    + apply Forall_fmap, Forall_forall. intros file _. apply urlPath_unlink_safe.
  - simpl in Hrun.
    destruct (delete_photo f name photoUrl) as [[res0 f0]|e] eqn:Hdel;
      [|apply Hsame; by simplify_eq].
    simplify_eq.
    apply delete_photo_inv in Hdel
      as [->|(url & db0 & p & l & l' & _ & _ & Hdb0 & Hp & Hl & [i ->] & ->)];
      [by apply Hsame|].
    assert (db0 = db) as -> by congruence.
    destruct (unlinkSync_cases (unlink_path url)
                (Saved {| byUsername :=
                            <[toLowerCase (trim name) :=
                                with_photos p (splice l i 1)]> (byUsername db);
                          byShortId := byShortId db |})) as [[_ ->]|[_ ->]]; [eauto|].
    eexists. split; [reflexivity|].
    intros v q l0 Hq Hl0. simpl in Hq.
    destruct (decide (toLowerCase (trim name) = v)) as [<-|Hne].
    + rewrite lookup_insert_eq in Hq. injection Hq as <-.
      simpl in Hl0. injection Hl0 as <-. apply splice_Forall. by eapply Hsafe.
    + rewrite lookup_insert_ne in Hq by done. by eapply Hsafe.
  - apply Hsame. simpl in Hrun. destruct (resolve_short f sid); by simplify_eq.
Qed.

Lemma reachable_safe f :
  reachable f → ∃ db, loadDb f = Done db ∧ photos_safe db.
Proof.
  induction 1 as [f Hfresh|f req rnd res f' _ (db & Hdb & Hsafe) Hrun].
  - exists emptyStore. split; [done|].
    intros v q l Hq. simpl in Hq. by rewrite lookup_empty in Hq.
  - by eapply serve_safe.
Qed.

(** A delete request in a state where the photo paths are safe leaves the
    store it has saved. *)
Lemma delete_photo_safe f db name photoUrl res f' :
  loadDb f = Done db → photos_safe db →
  delete_photo f name photoUrl = Done (res, f') →
  f' = f
  ∨ ∃ p l l',
      byUsername db !! toLowerCase (trim name) = Some p
      ∧ photos p = Some l
      ∧ f' = Saved {| byUsername :=
                        <[toLowerCase (trim name) := with_photos p l']> (byUsername db);
                      byShortId := byShortId db |}.
Proof.
  intros Hdb Hsafe Hdel.
  apply delete_photo_inv in Hdel
    as [->|(url & db0 & p & l & l' & _ & Hin & Hdb0 & Hp & Hl & _ & ->)]; [by left|].
  assert (db0 = db) as -> by congruence.
  right. exists p, l, l'. split_and!; [done|done|].
  apply unlinkSync_other.
  specialize (Hsafe _ _ _ Hp Hl). rewrite Forall_forall in Hsafe. by apply Hsafe.
Qed.

Lemma step_keeps_entries f db f' db' s u :
  loadDb f = Done db → bidirectional db → owners_named db → photos_safe db →
  step f f' → loadDb f' = Done db' →
  byShortId db !! s = Some u → byShortId db' !! s = Some u.
Proof.
  intros Hdb Hbi Hown Hsafe (req & rnd & res & Hrun) Hdb' Hentry.
  assert (Hsame : f' = f → byShortId db' !! s = Some u).
  { intros ->. assert (db' = db) as -> by congruence. done. }
  destruct req as [name|name b upload|name photoUrl|sid].
  - apply Hsame. simpl in Hrun. destruct (get_user f name); by simplify_eq.
  - destruct (serve_update_cases _ _ _ _ _ _ _ Hrun) as [(-> & _)|(Hok & _)]; [auto|].
    apply serve_update_inv in Hrun as (_ & db0 & sid & Hdb0 & Hsid & _ & ->); [|done].
    assert (db0 = db) as -> by congruence. injection Hdb' as <-. simpl.
    destruct (decide (sid = s)) as [->|Hne]; [|by rewrite set_lookup_ne].
    rewrite set_lookup_eq by (right; eauto).
    destruct (or_null (prop_shortId (get (byUsername db) (toLowerCase (trim name)))))
      as [s0|] eqn:Hmine.
    + injection Hsid as ->.
      apply or_null_Some in Hmine as [(p & Hp%get_Own & Hs)%prop_shortId_Some _].
      rewrite (Hbi _ _ _ Hp Hs) in Hentry. done.
    + apply generate_loop_free, taken_false in Hsid as [Hempty|[Hnone _]]; [|congruence].
      by apply Hown in Hempty.
  - simpl in Hrun.
    destruct (delete_photo f name photoUrl) as [[res0 f0]|e] eqn:Hdel;
      [|apply Hsame; by simplify_eq].
    simplify_eq.
    apply (delete_photo_safe f db) in Hdel
      as [->|(p & l & l' & _ & _ & ->)]; [auto| |done|done].
    by injection Hdb' as <-.
  - apply Hsame. simpl in Hrun. destruct (resolve_short f sid); by simplify_eq.
Qed.

(** X16: short links are permanent.  From a state the API can bring about,
    an entry of [byShortId] stays as it is through every further sequence
    of requests: the id keeps leading to the same username. *)
Theorem shortId_entries_permanent f f' db db' s u :
  reachable f → later f f' →
  loadDb f = Done db → loadDb f' = Done db' →
  byShortId db !! s = Some u → byShortId db' !! s = Some u.
Proof.
  intros Hreach Hlater. revert db.
  induction Hlater as [f|f f1 f2 Hstep _ IH]; intros db Hdb Hdb' Hentry.
  - congruence.
  - destruct (loadDb_total f1) as [db1 Hdb1].
    destruct (reachable_consistent f Hreach) as (db0 & Hdb0 & Hbi & Hown).
    assert (db0 = db) as -> by congruence.
    destruct (reachable_safe f Hreach) as (db0 & Hdb0' & Hsafe).
    assert (db0 = db) as -> by congruence.
    apply (IH (later_reachable f f1 Hreach (rtc_once _ _ Hstep)) db1 Hdb1 Hdb').
    by eapply step_keeps_entries.
Qed.

Lemma step_keeps_shortId f db f' db' u p s :
  loadDb f = Done db → photos_safe db → step f f' → loadDb f' = Done db' →
  byUsername db !! u = Some p → shortId p = Some s → s ≠ "" →
  ∃ p', byUsername db' !! u = Some p' ∧ shortId p' = Some s.
Proof.
  intros Hdb Hsafe (req & rnd & res & Hrun) Hdb' Hp Hs Hne.
  assert (Hsame : f' = f → ∃ p', byUsername db' !! u = Some p' ∧ shortId p' = Some s).
  { intros ->. assert (db' = db) as -> by congruence. eauto. }
  destruct req as [name|name b upload|name photoUrl|sid].
  - apply Hsame. simpl in Hrun. destruct (get_user f name); by simplify_eq.
  - destruct (serve_update_cases _ _ _ _ _ _ _ Hrun) as [(-> & _)|(Hok & _)]; [auto|].
    apply serve_update_inv in Hrun as (_ & db0 & sid & Hdb0 & Hsid & _ & ->); [|done].
    assert (db0 = db) as -> by congruence. injection Hdb' as <-. simpl.
    destruct (decide (toLowerCase (trim name) = u)) as [Hu|Hu];
      [|rewrite set_lookup_ne by done; eauto].
    rewrite Hu in Hsid |- *. rewrite set_lookup_eq by (right; eauto).
    assert (Hmine : or_null (prop_shortId (get (byUsername db) u)) = Some s).
    { apply or_null_Some. split; [|done]. apply prop_shortId_Some.
      exists p. split; [|done]. by apply get_Own. }
    rewrite Hmine in Hsid. injection Hsid as <-. eauto.
  - simpl in Hrun.
    destruct (delete_photo f name photoUrl) as [[res0 f0]|e] eqn:Hdel;
      [|apply Hsame; by simplify_eq].
    simplify_eq.
    apply (delete_photo_safe f db) in Hdel
      as [->|(p0 & l & l' & Hp0 & _ & ->)]; [auto| |done|done].
    injection Hdb' as <-. simpl.
    destruct (decide (toLowerCase (trim name) = u)) as [Hu|Hu].
    + rewrite Hu in Hp0 |- *. rewrite lookup_insert_eq.
      assert (p0 = p) as -> by congruence. eauto.
    + rewrite lookup_insert_ne by done. eauto.
  - apply Hsame. simpl in Hrun. destruct (resolve_short f sid); by simplify_eq.
Qed.

(** X17: a profile and its short id are permanent.  From a state the API
    can bring about, a profile with a non-empty short id is still stored,
    with the same short id, after every further sequence of requests: no
    request removes a profile or replaces a non-empty id.  (The delete
    handler unlinks uploads only in such a state; on a store written by
    hand it may unlink the backing file and with it every profile.) *)
Theorem profile_shortId_permanent f f' db db' u p s :
  reachable f → later f f' →
  loadDb f = Done db → loadDb f' = Done db' →
  byUsername db !! u = Some p → shortId p = Some s → s ≠ "" →
  ∃ p', byUsername db' !! u = Some p' ∧ shortId p' = Some s.
Proof.
  intros Hreach Hlater Hdb Hdb' Hp Hs Hne. revert db p Hdb Hp Hs.
  induction Hlater as [f|f f1 f2 Hstep _ IH]; intros db p Hdb Hp Hs.
  - assert (db' = db) as -> by congruence. eauto.
  - destruct (loadDb_total f1) as [db1 Hdb1].
    destruct (reachable_safe f Hreach) as (db0 & Hdb0 & Hsafe).
    assert (db0 = db) as -> by congruence.
    destruct (step_keeps_shortId f db f1 db1 u p s Hdb Hsafe Hstep Hdb1 Hp Hs Hne)
      as (p1 & Hp1 & Hs1).
    apply (IH (later_reachable f f1 Hreach (rtc_once _ _ Hstep)) Hdb' db1 p1);
      done.
Qed.

(** X22: in operation the delete handler never unlinks the backing file.
    In every state the API can bring about, no stored photo path leads the
    handler to [data/users.json], and a delete request answered 200 leaves
    the backing file holding a store in which the profile of the user is
    still found. *)
Theorem reachable_delete_keeps_store f db name photoUrl rnd res f' :
  reachable f → loadDb f = Done db →
  serve f (POST_delete_photo name photoUrl) rnd = Some (res, f') →
  status res = 200%nat →
  (∀ u p l x, byUsername db !! u = Some p → photos p = Some l → x ∈ l →
     path_join ROOT_DIR (if startsWith x "/" then substring 1 x else x)
     ≠ path_join (path_join ROOT_DIR "data") "users.json")
  ∧ ∃ db', f' = Saved db' ∧ is_Some (byUsername db' !! toLowerCase (trim name)).
Proof.
  intros (db0 & Hdb0 & Hsafe)%reachable_safe Hdb Hrun Hok.
  assert (db0 = db) as -> by congruence.
  split.
  - intros u p l x Hp Hl Hx. specialize (Hsafe _ _ _ Hp Hl).
    rewrite Forall_forall in Hsafe. by apply (Hsafe x).
  - simpl in Hrun.
    destruct (delete_photo f name photoUrl) as [[res0 f0]|e] eqn:Hdel.
    + simplify_eq.
      apply delete_photo_cases in Hdel
        as [[_ Hne]|(_ & db0 & url & p & l1 & l2 & Hdb0' & _ & Hp & Hl & _ & ->)];
        [done|].
      assert (db0 = db) as -> by congruence.
      rewrite unlinkSync_other.
      * eexists. split; [reflexivity|]. simpl. rewrite lookup_insert_eq. eauto.
      * specialize (Hsafe _ _ _ Hp Hl). rewrite Forall_forall in Hsafe.
        apply Hsafe. set_solver.
    + by apply delete_photo_never_raises in Hdel.
Qed.

End Always.

(** ** The further properties on the sample data *)

Section Reruns.
Import Sample Fixture.
Local Existing Instance Posix.platform.

Lemma get_after_update_witness :
  serve (Saved alice_store) (GET_user " ALICE") []
  = Some ({| status := 200;
             body := JsonUser "alice" "hello"
                       ["/uploads/photos/alice/1735000000000-42.png"]
                       (if truthy "4fzyo8" then Some "4fzyo8" else None) |},
          Saved alice_store).
Proof.
  refine (get_after_update NoFile "Alice " "hello" (Multipart [picture]) [typical]
            "alice" "hello" ["/uploads/photos/alice/1735000000000-42.png"]
            "4fzyo8" "/u/4fzyo8" (Saved alice_store) " ALICE" [] _ _ _).
  - reflexivity.
  - reflexivity.
  - discriminate.
Defined.

Lemma shortUrl_resolves_witness :
  "/u/4fzyo8" = "/u/" +:+ "4fzyo8"
  ∧ serve (Saved alice_store) (GET_u " 4fzyo8") []
    = Some ({| status := 302;
               body := Redirect ("/tree.html?user=" +:+ encodeURIComponent "alice") |},
            Saved alice_store).
Proof.
  refine (shortUrl_resolves NoFile "Alice " "hello" (Multipart [picture]) [typical]
            "alice" "hello" ["/uploads/photos/alice/1735000000000-42.png"]
            "4fzyo8" "/u/4fzyo8" (Saved alice_store) " 4fzyo8" [] _ _ _).
  - reflexivity.
  - reflexivity.
  - discriminate.
Defined.

Lemma update_resubmitted_witness :
  serve (Saved alice_store) (POST_config "Alice " "hello" (Multipart [])) [half]
  = Some ({| status := 200;
             body := JsonSaved "alice" "hello"
                       ["/uploads/photos/alice/1735000000000-42.png"]
                       "4fzyo8" "/u/4fzyo8" |},
          Saved alice_store).
Proof.
  refine (update_resubmitted NoFile "Alice " "hello" (Multipart [picture]) [typical]
            "alice" "hello" ["/uploads/photos/alice/1735000000000-42.png"]
            "4fzyo8" "/u/4fzyo8" (Saved alice_store) (Multipart []) [half] _ _ _ _).
  - reflexivity.
  - discriminate.
  - discriminate.
  - reflexivity.
Defined.

Lemma update_changes_one_profile_witness :
  (∀ v, v ≠ toLowerCase (trim "Dave") →
        byUsername (saved_store carol_store "dave" "peace" [] "4fzyo8") !! v
        = byUsername carol_store !! v)
  ∧ (∀ s, (∀ un bl ph url,
             body {| status := 200;
                     body := JsonSaved "dave" "peace" [] "4fzyo8" "/u/4fzyo8" |}
             ≠ JsonSaved un bl ph s url) →
          byShortId (saved_store carol_store "dave" "peace" [] "4fzyo8") !! s
          = byShortId carol_store !! s).
Proof.
  refine (update_changes_one_profile (Saved carol_store) carol_store "Dave" "peace"
            NotMultipart [typical]
            {| status := 200;
               body := JsonSaved "dave" "peace" [] "4fzyo8" "/u/4fzyo8" |}
            (Saved (saved_store carol_store "dave" "peace" [] "4fzyo8"))
            (saved_store carol_store "dave" "peace" [] "4fzyo8") _ _ _).
  - reflexivity.
  - reflexivity.
  - reflexivity.
Defined.


Lemma proto_update_lost_witness :
  ∃ db',
    loadDb (Saved {| byUsername := ∅; byShortId := {[ "4fzyo8" := "__proto__" ]} |})
    = Done db'
    ∧ byUsername db' = byUsername emptyStore
    ∧ ∀ rnd',
        serve (Saved {| byUsername := ∅; byShortId := {[ "4fzyo8" := "__proto__" ]} |})
          (GET_user "__proto__") rnd'
        = Some ({| status := 200; body := JsonUser "__proto__" "" [] None |},
                Saved {| byUsername := ∅;
                         byShortId := {[ "4fzyo8" := "__proto__" ]} |}).
Proof.
  refine (proto_update_lost NoFile emptyStore "__proto__" "hello" (Multipart [picture])
            [typical]
            {| status := 200;
               body := JsonSaved "__proto__" "hello"
                         ["/uploads/photos/__proto__/1735000000000-42.png"]
                         "4fzyo8" "/u/4fzyo8" |}
            (Saved {| byUsername := ∅; byShortId := {[ "4fzyo8" := "__proto__" ]} |})
            _ _ _ _).
  - reflexivity.
  - reflexivity.
  - reflexivity.
  - reflexivity.
Defined.

Lemma delete_photo_effect_witness :
  (status {| status := 200; body := JsonDeleted "Photo deleted successfully" |}
   ≠ 200%nat → Saved carol_pruned = Saved carol_store)
  ∧ (status {| status := 200; body := JsonDeleted "Photo deleted successfully" |}
     = 200%nat →
     ∃ db url p l1 l2,
       loadDb (Saved carol_store) = Done db
       ∧ Some "/uploads/photos/carol/b.png" = Some url
       ∧ byUsername db !! toLowerCase (trim "Carol") = Some p
       ∧ photos p = Some (l1 ++ url :: l2) ∧ (url ∉ l1)
       ∧ Saved carol_pruned
         = if decide (path_join ROOT_DIR
                        (if startsWith url "/" then substring 1 url else url)
                      = path_join (path_join ROOT_DIR "data") "users.json")
           then NoFile
           else Saved {| byUsername :=
                           <[toLowerCase (trim "Carol") :=
                               {| username := username p; blessing := blessing p;
                                  photos := Some (l1 ++ l2); shortId := shortId p |}]>
                             (byUsername db);
                         byShortId := byShortId db |}).
Proof.
  refine (delete_photo_effect (Saved carol_store) "Carol"
            (Some "/uploads/photos/carol/b.png") []
            {| status := 200; body := JsonDeleted "Photo deleted successfully" |}
            (Saved carol_pruned) _).
  reflexivity.
Defined.

Lemma delete_photo_again_witness :
  serve (Saved carol_pruned)
    (POST_delete_photo "Carol" (Some "/uploads/photos/carol/b.png")) []
  = Some ({| status := 404; body := JsonFail "Photo not found in user data" |},
          Saved carol_pruned).
Proof.
  refine (delete_photo_again (Saved carol_store) carol_store "Carol"
            "/uploads/photos/carol/b.png" [] "carol" carol
            ["/uploads/photos/carol/a.png"; "/uploads/photos/carol/b.png";
             "/uploads/photos/carol/a.png"]
            {| status := 200; body := JsonDeleted "Photo deleted successfully" |}
            (Saved carol_pruned) [] _ _ _ _ _ _ _ _ _).
  - reflexivity.
  - reflexivity.
  - discriminate.
  - discriminate.
  - reflexivity.
  - reflexivity.
  - reflexivity.
  - discriminate.
  - reflexivity.
Defined.

Lemma upload_then_delete_witness :
  ∃ f'' db'' p'',
    serve (Saved (saved_store carol_store "carol" "joy"
                    ["/uploads/photos/carol/a.png"; "/uploads/photos/carol/b.png";
                     "/uploads/photos/carol/a.png";
                     "/uploads/photos/carol/1735000000002-7.png"]
                    "k3x9qz"))
      (POST_delete_photo "Carol" (Some (urlPath "Carol" bauble))) []
    = Some ({| status := 200; body := JsonDeleted "Photo deleted successfully" |}, f'')
    ∧ loadDb f'' = Done db''
    ∧ byUsername db'' !! toLowerCase (trim "Carol") = Some p''
    ∧ photos p'' = Some (prior_photos carol_store (toLowerCase (trim "Carol"))).
Proof.
  refine (upload_then_delete (Saved carol_store) carol_store "Carol" "joy" bauble []
            {| status := 200;
               body := JsonSaved "carol" "joy"
                         ["/uploads/photos/carol/a.png"; "/uploads/photos/carol/b.png";
                          "/uploads/photos/carol/a.png";
                          "/uploads/photos/carol/1735000000002-7.png"]
                         "k3x9qz" "/u/k3x9qz" |}
            (Saved (saved_store carol_store "carol" "joy"
                      ["/uploads/photos/carol/a.png"; "/uploads/photos/carol/b.png";
                       "/uploads/photos/carol/a.png";
                       "/uploads/photos/carol/1735000000002-7.png"]
                      "k3x9qz"))
            [] _ _ _ _ _).
  - reflexivity.
  - reflexivity.
  - reflexivity.
  - discriminate.
  - apply occurrences_zero. reflexivity.
Defined.

Lemma get_user_unknown_witness :
  serve NoFile (GET_user "Constructor") []
  = Some (if decide (toLowerCase (trim "Constructor") ∈ Object_prototype_keys)
          then {| status := 200;
                  body := JsonUser (toLowerCase (trim "Constructor")) "" [] None |}
          else {| status := 404; body := JsonError "User not found" |},
          NoFile).
Proof.
  refine (get_user_unknown NoFile emptyStore "Constructor" [] _ _).
  - reflexivity.
  - reflexivity.
Defined.

Lemma resolve_short_unknown_witness :
  serve (Saved alice_store) (GET_u "zzzzzz") []
  = Some (if decide (byShortId alice_store !! trim "zzzzzz" = None
                     ∧ trim "zzzzzz" ∈ Object_prototype_keys)
          then {| status := 302;
                  body := Redirect ("/tree.html?user="
                                    +:+ encodeURIComponent (member_text (trim "zzzzzz"))) |}
          else {| status := 404; body := Text "Invalid link" |},
          Saved alice_store).
Proof.
  refine (resolve_short_unknown (Saved alice_store) alice_store "zzzzzz" [] _ _).
  - reflexivity.
  - left. reflexivity.
Defined.

Lemma reachable_profiles_witness : profiles_wellformed alice_store.
Proof.
  refine (reachable_profiles (Saved alice_store) alice_store _ _).
  - exact alice_reachable.
  - reflexivity.
Defined.

Lemma reachable_bidirectional_witness :
  bidirectional alice_store ∧ owners_named alice_store.
Proof.
  refine (reachable_bidirectional (Saved alice_store) alice_store _ _).
  - exact alice_reachable.
  - reflexivity.
Defined.

Lemma stored_shortId_resolves_witness :
  serve (Saved alice_store) (GET_u "4fzyo8") [half]
  = Some ({| status := 302;
             body := Redirect ("/tree.html?user=" +:+ encodeURIComponent "alice") |},
          Saved alice_store).
Proof.
  refine (stored_shortId_resolves (Saved alice_store) alice_store "alice"
            {| username := "alice"; blessing := "hello";
               photos := Some ["/uploads/photos/alice/1735000000000-42.png"];
               shortId := Some "4fzyo8" |}
            "4fzyo8" "4fzyo8" [half] _ _ _ _ _).
  - exact alice_reachable.
  - reflexivity.
  - reflexivity.
  - reflexivity.
  - reflexivity.
Defined.

Lemma alice_then_dave :
  later (Saved alice_store) (Saved (saved_store alice_store "dave" "peace" [] "i")).
Proof.
  apply rtc_once.
  exists (POST_config "Dave" "peace" NotMultipart), [typical; half],
    {| status := 200; body := JsonSaved "dave" "peace" [] "i" "/u/i" |}.
  reflexivity.
Defined.

Lemma shortId_entries_permanent_witness :
  byShortId (saved_store alice_store "dave" "peace" [] "i") !! "4fzyo8" = Some "alice".
Proof.
  refine (shortId_entries_permanent (Saved alice_store)
            (Saved (saved_store alice_store "dave" "peace" [] "i"))
            alice_store (saved_store alice_store "dave" "peace" [] "i")
            "4fzyo8" "alice" _ _ _ _ _).
  - exact alice_reachable.
  - exact alice_then_dave.
  - reflexivity.
  - reflexivity.
  - reflexivity.
Defined.

Lemma alice_then_bare : later (Saved alice_store) (Saved alice_bare).
Proof.
  apply rtc_once.
  exists (POST_delete_photo "Alice"
            (Some "/uploads/photos/alice/1735000000000-42.png")), [],
    {| status := 200; body := JsonDeleted "Photo deleted successfully" |}.
  reflexivity.
Defined.

Lemma profile_shortId_permanent_witness :
  ∃ p', byUsername alice_bare !! "alice" = Some p' ∧ shortId p' = Some "4fzyo8".
Proof.
  refine (profile_shortId_permanent (Saved alice_store) (Saved alice_bare)
            alice_store alice_bare "alice"
            {| username := "alice"; blessing := "hello";
               photos := Some ["/uploads/photos/alice/1735000000000-42.png"];
               shortId := Some "4fzyo8" |}
            "4fzyo8" _ _ _ _ _ _ _).
  - exact alice_reachable.
  - exact alice_then_bare.
  - reflexivity.
  - reflexivity.
  - reflexivity.
  - reflexivity.
  - discriminate.
Defined.

Lemma reachable_delete_keeps_store_witness :
  (∀ u p l x, byUsername alice_store !! u = Some p → photos p = Some l → x ∈ l →
     path_join ROOT_DIR (if startsWith x "/" then substring 1 x else x)
     ≠ path_join (path_join ROOT_DIR "data") "users.json")
  ∧ ∃ db', Saved alice_bare = Saved db'
           ∧ is_Some (byUsername db' !! toLowerCase (trim "Alice")).
Proof.
  refine (reachable_delete_keeps_store (Saved alice_store) alice_store "Alice"
            (Some "/uploads/photos/alice/1735000000000-42.png") []
            {| status := 200; body := JsonDeleted "Photo deleted successfully" |}
            (Saved alice_bare) _ _ _ _).
  - exact alice_reachable.
  - reflexivity.
  - reflexivity.
  - reflexivity.
Defined.

End Reruns.
